(** * Query-form validator of Scribe-Data: a shallow embedding

    This development embeds [src/scribe_data/check/check_query_forms.py]
    and proves properties of its checking functions.

    Modelling conventions.
    - A Python [str] is a Rocq [string]; each [ascii] stands for the code
      point of the same number, so the texts covered are those whose code
      points lie in 0..255.  Character classes ([\s], [\w], [\d], [.]),
      [str.lower], [str.strip] and [str.splitlines] are the ones of CPython
      restricted to that range.
    - An exception is an explicit result: [pyresult A] is either [Ok a] or
      [Raise e].
    - The patterns handed to [re] are values of [Re.regex], matched by a
      backtracking matcher that follows the priorities of [re] (leftmost
      match, greedy and lazy repetition, one capture group). *)

From Stdlib Require Import String Ascii List Bool Arith NArith Lia Permutation Sorted.
From Stdlib Require DecimalString.
Import ListNotations.

Open Scope string_scope.
Open Scope list_scope.

(** ** Python primitives *)

Module Py.

Inductive exn : Type :=
| IndexError
| KeyError
| UnboundLocalError
| ReError.

Inductive pyresult (A : Type) : Type :=
| Ok (a : A)
| Raise (e : exn).

Arguments Ok {A} a.
Arguments Raise {A} e.

Definition bind {A B : Type} (m : pyresult A) (f : A -> pyresult B) : pyresult B :=
  match m with
  | Ok a => f a
  | Raise e => Raise e
  end.

Definition LF : ascii := ascii_of_nat 10.
Definition CR : ascii := ascii_of_nat 13.

(** [c.isspace()], which is also the class [\s] of [re]. *)
Definition is_space (c : ascii) : bool :=
  let n := nat_of_ascii c in
  (((9 <=? n) && (n <=? 13)) || ((28 <=? n) && (n <=? 32))
   || (n =? 133) || (n =? 160))%nat.

(** The class [\d]. *)
Definition is_digit (c : ascii) : bool :=
  let n := nat_of_ascii c in ((48 <=? n) && (n <=? 57))%nat.

(** The class [\w]: alphanumeric code points and the underscore. *)
Definition is_word (c : ascii) : bool :=
  let n := nat_of_ascii c in
  (is_digit c
   || ((65 <=? n) && (n <=? 90)) || (n =? 95) || ((97 <=? n) && (n <=? 122))
   || (n =? 170) || (n =? 178) || (n =? 179) || (n =? 181) || (n =? 185)
   || (n =? 186) || ((188 <=? n) && (n <=? 190))
   || ((192 <=? n) && (n <=? 214)) || ((216 <=? n) && (n <=? 246))
   || (248 <=? n))%nat.

(** The character [.] of a pattern compiled without [re.DOTALL]. *)
Definition is_dot (c : ascii) : bool := negb (Ascii.eqb c LF).

Definition any_char (c : ascii) : bool := true.

(** The boundaries at which [str.splitlines] cuts. *)
Definition is_linebreak (c : ascii) : bool :=
  let n := nat_of_ascii c in
  (((10 <=? n) && (n <=? 13)) || ((28 <=? n) && (n <=? 30)) || (n =? 133))%nat.

(** [c.lower()] for one character. *)
Definition lower_char (c : ascii) : ascii :=
  let n := nat_of_ascii c in
  if (((65 <=? n) && (n <=? 90))
      || ((192 <=? n) && (n <=? 222) && negb (n =? 215)))%nat
  then ascii_of_nat (n + 32)
  else c.

(** [s[:1].lower() + s[1:]] *)
Definition lower_first (s : string) : string :=
  match s with
  | EmptyString => EmptyString
  | String c s' => String (lower_char c) s'
  end.

Fixpoint lstrip (s : string) : string :=
  match s with
  | EmptyString => EmptyString
  | String c s' => if is_space c then lstrip s' else s
  end.

Fixpoint rstrip (s : string) : string :=
  match s with
  | EmptyString => EmptyString
  | String c s' =>
      match rstrip s' with
      | EmptyString => if is_space c then EmptyString else String c EmptyString
      | t => String c t
      end
  end.

(** [s.strip()] *)
Definition strip (s : string) : string := rstrip (lstrip s).

(** [s.startswith(p)], returning what follows the prefix. *)
Fixpoint drop_prefix (p s : string) : option string :=
  match p with
  | EmptyString => Some s
  | String a p' =>
      match s with
      | EmptyString => None
      | String b s' => if Ascii.eqb a b then drop_prefix p' s' else None
      end
  end.

Definition startswith (p s : string) : bool :=
  match drop_prefix p s with Some _ => true | None => false end.

(** [sub in s] for strings. *)
Fixpoint contains (sub s : string) : bool :=
  startswith sub s
  || match s with
     | EmptyString => false
     | String _ s' => contains sub s'
     end.

(** [s.splitlines(keepends=True)] *)
Fixpoint splitlines (s : string) : list string :=
  match s with
  | EmptyString => []
  | String c s' =>
      if is_linebreak c then
        match s' with
        | String d s'' =>
            if Ascii.eqb c CR && Ascii.eqb d LF
            then String c (String d EmptyString) :: splitlines s''
            else String c EmptyString :: splitlines s'
        | EmptyString => [String c EmptyString]
        end
      else
        match splitlines s' with
        | [] => [String c EmptyString]
        | l :: ls => String c l :: ls
        end
  end.

(** The pieces of [s.split(sep)] for a non-empty [sep]: the piece under
    construction and the pieces after it.  [skip] counts the characters of
    a separator occurrence that are still to be dropped. *)
Fixpoint split_from (sep s : string) (skip : nat) : string * list string :=
  match s with
  | EmptyString => (EmptyString, [])
  | String c s' =>
      match skip with
      | S n => split_from sep s' n
      | O =>
          if startswith sep s then
            let (p, ps) := split_from sep s' (String.length sep - 1) in
            (EmptyString, p :: ps)
          else
            let (p, ps) := split_from sep s' 0 in
            (String c p, ps)
      end
  end.

(** [s.split(sep)] *)
Definition split (sep s : string) : list string :=
  let (p, ps) := split_from sep s 0 in p :: ps.

(** [sep.join(l)] *)
Definition join (sep : string) (l : list string) : string := String.concat sep l.

(** [x in l] for a list of strings. *)
Definition mem (x : string) (l : list string) : bool :=
  existsb (String.eqb x) l.

(** [l.count(x)] *)
Definition count (x : string) (l : list string) : nat :=
  List.length (filter (String.eqb x) l).

(** [l.index(x)], for an [x] that occurs in [l]. *)
Fixpoint index (x : string) (l : list string) : option nat :=
  match l with
  | [] => None
  | y :: l' =>
      if String.eqb x y then Some 0
      else match index x l' with
           | Some i => Some (S i)
           | None => None
           end
  end.

(** [l.insert(i, x)] for [i >= 0]: past the end it appends. *)
Definition insert (i : nat) (x : string) (l : list string) : list string :=
  firstn i l ++ x :: skipn i l.

(** The distinct elements of a list: the elements of [set(l)]. *)
Definition distinct (l : list string) : list string := nodup string_dec l.

(** [set(a) - set(b)], as the list of its elements. *)
Definition set_diff (a b : list string) : list string :=
  distinct (filter (fun x => negb (mem x b)) a).

(** [set(a) <= set(b)] *)
Definition set_le (a b : list string) : bool :=
  forallb (fun x => mem x b) a.

Fixpoint insert_sorted (x : string) (l : list string) : list string :=
  match l with
  | [] => [x]
  | y :: l' => if String.leb x y then x :: l else y :: insert_sorted x l'
  end.

(** [sorted(l)] for strings, which compare by code point. *)
Definition sorted (l : list string) : list string :=
  fold_right insert_sorted [] l.

(** [c.isprintable()] *)
Definition is_printable (c : ascii) : bool :=
  let n := nat_of_ascii c in
  negb ((n <? 32) || ((127 <=? n) && (n <=? 160)) || (n =? 173))%nat.

Definition hex_digit (n : nat) : ascii :=
  if (n <? 10)%nat then ascii_of_nat (48 + n) else ascii_of_nat (87 + n).

Definition single_quote : ascii := ascii_of_nat 39.
Definition double_quote : ascii := ascii_of_nat 34.
Definition backslash : ascii := ascii_of_nat 92.

(** One character of [repr(s)], written between quotes [quote]. *)
Definition repr_char (quote c : ascii) : string :=
  let n := nat_of_ascii c in
  if Ascii.eqb c quote || Ascii.eqb c backslash
  then String backslash (String c EmptyString)
  else if (n =? 9)%nat then String backslash "t"
  else if (n =? 10)%nat then String backslash "n"
  else if (n =? 13)%nat then String backslash "r"
  else if is_printable c then String c EmptyString
  else String backslash
         (String "x" (String (hex_digit (n / 16)) (String (hex_digit (n mod 16)) EmptyString))).

Fixpoint repr_chars (quote : ascii) (s : string) : string :=
  match s with
  | EmptyString => EmptyString
  | String c s' => (repr_char quote c ++ repr_chars quote s')%string
  end.

(** [repr(s)]: double quotes when [s] holds a single quote and no double
    quote, single quotes otherwise. *)
Definition repr (s : string) : string :=
  let quote :=
    if contains (String single_quote EmptyString) s
       && negb (contains (String double_quote EmptyString) s)
    then double_quote else single_quote in
  String quote (repr_chars quote s ++ String quote EmptyString).

(** [str(n)] for a natural number. *)
Definition str_nat (n : nat) : string :=
  DecimalString.NilZero.string_of_uint (Nat.to_uint n).

End Py.

Import Py.

Notation "x <- m ;; f" := (Py.bind m (fun x => f))
  (at level 61, m at next level, right associativity).

(** ** The fragment of [re] that the validator uses

    Every quantifier in the validator's patterns applies to a one-character
    class, so repetition is a constructor of its own and the matcher is
    structurally recursive. *)

Module Re.

Inductive regex : Type :=
| Lit (s : string)
| Cls (p : ascii -> bool)
| Rep (greedy : bool) (min : nat) (p : ascii -> bool)
| Seq (r1 r2 : regex)
| Grp (r : regex)
| Bol.

(** A match object: [m.start()], [m.end()], [m[0]] and [m[1]]. *)
Record mobj : Type := MObj {
  m_start : nat;
  m_end : nat;
  group0 : string;
  group1 : option string
}.

Section Matcher.

Context {A : Type}.

(** [p*] and [p+], greedy: take a character first, give it back on failure. *)
Fixpoint rep_greedy (p : ascii -> bool) (min pos : nat) (s : string)
  (k : nat -> string -> option A) : option A :=
  match s with
  | String c s' =>
      if p c then
        match rep_greedy p (Nat.pred min) (S pos) s' k with
        | Some a => Some a
        | None => match min with O => k pos s | S _ => None end
        end
      else match min with O => k pos s | S _ => None end
  | EmptyString => match min with O => k pos s | S _ => None end
  end.

(** [p*?] and [p+?], lazy: stop as soon as the rest of the pattern matches. *)
Fixpoint rep_lazy (p : ascii -> bool) (min pos : nat) (s : string)
  (k : nat -> string -> option A) : option A :=
  match min, k pos s with
  | O, Some a => Some a
  | _, _ =>
      match s with
      | String c s' =>
          if p c then rep_lazy p (Nat.pred min) (S pos) s' k else None
      | EmptyString => None
      end
  end.

(** The matcher proper, in continuation-passing style: [k] receives the
    position reached, the text still to read and the capture so far. *)
Fixpoint mat (r : regex) (pos : nat) (s : string) (g : option string)
  (k : nat -> string -> option string -> option A) : option A :=
  match r with
  | Lit l =>
      match drop_prefix l s with
      | Some s' => k (pos + String.length l) s' g
      | None => None
      end
  | Cls p =>
      match s with
      | String c s' => if p c then k (S pos) s' g else None
      | EmptyString => None
      end
  | Rep true min p => rep_greedy p min pos s (fun pos' s' => k pos' s' g)
  | Rep false min p => rep_lazy p min pos s (fun pos' s' => k pos' s' g)
  | Seq r1 r2 => mat r1 pos s g (fun pos' s' g' => mat r2 pos' s' g' k)
  | Grp r1 =>
      mat r1 pos s g
        (fun pos' s' _ => k pos' s' (Some (substring 0 (pos' - pos) s)))
  | Bol => if Nat.eqb pos 0 then k pos s g else None
  end.

End Matcher.

(** One attempt at position [pos], where [s] is the text from there on. *)
Definition match_at (r : regex) (pos : nat) (s : string) : option mobj :=
  mat r pos s None
    (fun pos' _ g => Some (MObj pos pos' (substring 0 (pos' - pos) s) g)).

(** [re.match(r, s)] *)
Definition rmatch (r : regex) (s : string) : option mobj := match_at r 0 s.

Fixpoint search_from (r : regex) (pos : nat) (s : string) : option mobj :=
  match match_at r pos s with
  | Some m => Some m
  | None =>
      match s with
      | String _ s' => search_from r (S pos) s'
      | EmptyString => None
      end
  end.

(** [re.search(r, s)]: the match at the leftmost position that has one. *)
Definition search (r : regex) (s : string) : option mobj := search_from r 0 s.

(** The matches of [re.finditer]: left to right, without overlap.  [skip]
    counts the characters of the last match still to pass.  (An empty
    match moves one character on; no pattern of the validator matches the
    empty string.) *)
Fixpoint finditer_from (r : regex) (s : string) (skip pos : nat) : list mobj :=
  match s with
  | EmptyString =>
      match skip with
      | O => match match_at r pos s with Some m => [m] | None => [] end
      | S _ => []
      end
  | String _ s' =>
      match skip with
      | S n => finditer_from r s' n (S pos)
      | O =>
          match match_at r pos s with
          | Some m => m :: finditer_from r s' (Nat.pred (m_end m - m_start m)) (S pos)
          | None => finditer_from r s' 0 (S pos)
          end
      end
  end.

Definition finditer (r : regex) (s : string) : list mobj := finditer_from r s 0 0.

(** [m[1]]; a group that took no part yields the empty string in
    [re.findall]. *)
Definition group1_str (m : mobj) : string :=
  match group1 m with Some g => g | None => EmptyString end.

(** [re.findall(r, s)] for a pattern with one group. *)
Definition findall (r : regex) (s : string) : list string :=
  map group1_str (finditer r s).

(** Every character of [s] is of class [p]. *)
Fixpoint all_chars (p : ascii -> bool) (s : string) : bool :=
  match s with
  | EmptyString => true
  | String c s' => p c && all_chars p s'
  end.

(** The texts a pattern can match at position [pos], with the capture
    before and after: what a successful run of the matcher has read. *)
Fixpoint accepts (r : regex) (pos : nat) (w : string) (g g' : option string) : Prop :=
  match r with
  | Lit l => w = l /\ g' = g
  | Cls p => exists c, w = String c EmptyString /\ p c = true /\ g' = g
  | Rep _ min p => all_chars p w = true /\ min <= String.length w /\ g' = g
  | Seq r1 r2 =>
      exists w1 w2 g1,
        w = (w1 ++ w2)%string /\ accepts r1 pos w1 g g1
        /\ accepts r2 (pos + String.length w1) w2 g1 g'
  | Grp r1 => (exists g1, accepts r1 pos w g g1) /\ g' = Some w
  | Bol => w = EmptyString /\ pos = 0 /\ g' = g
  end.

End Re.

Import Re.

Infix "+++" := Re.Seq (at level 60, right associativity).

(** ** The validator *)

(** One entry of the controlled vocabulary, a JSON object that may hold
    the keys ["qid"] and ["label"]. *)
Record form_entry : Type := FormEntry {
  qid : option string;
  label : option string
}.

(** [lexeme_form_metadata]: category name to feature name to entry, in the
    order of the resource file. *)
Definition vocabulary : Type := list (string * list (string * form_entry)).

(** The values stored in [query_form_check_dict]. *)
Record form_check : Type := FormCheck {
  form_rep_match : bool;
  correct_formatting : bool;
  qids : option (list string);
  correct_form_rep_label : string
}.

(** A Python [dict] keyed by a representation label, which may be [None]:
    entries in insertion order, one per key. *)
Definition check_dict : Type := list (option string * form_check).

Definition key_eqb (a b : option string) : bool :=
  match a, b with
  | Some x, Some y => String.eqb x y
  | None, None => true
  | _, _ => false
  end.

(** [d[k] = v]: a key already present keeps its place and takes the new
    value. *)
Fixpoint dict_set (k : option string) (v : form_check) (d : check_dict) : check_dict :=
  match d with
  | [] => [(k, v)]
  | (k', v') :: d' =>
      if key_eqb k k' then (k', v) :: d' else (k', v') :: dict_set k v d'
  end.

Fixpoint dict_get (k : option string) (d : check_dict) : option form_check :=
  match d with
  | [] => None
  | (k', v') :: d' => if key_eqb k k' then Some v' else dict_get k d'
  end.

(** [l[i]] *)
Definition item (i : nat) (l : list string) : pyresult string :=
  match nth_error l i with
  | Some x => Ok x
  | None => Raise IndexError
  end.

(** A list comprehension whose element expression may raise. *)
Fixpoint mapM {A B : Type} (f : A -> pyresult B) (l : list A) : pyresult (list B) :=
  match l with
  | [] => Ok []
  | a :: l' => b <- f a ;; bs <- mapM f l' ;; Ok (b :: bs)
  end.

(** A [for] loop over [l] that updates [acc] and may raise. *)
Fixpoint foldM {A B : Type} (f : B -> A -> pyresult B) (l : list A) (acc : B) : pyresult B :=
  match l with
  | [] => Ok acc
  | a :: l' => acc' <- f acc a ;; foldM f l' acc'
  end.

Definition list_eqb (a b : list string) : bool :=
  if list_eq_dec string_dec a b then true else false.

Definition not_char (x : ascii) (c : ascii) : bool := negb (Ascii.eqb c x).

(** The characters with a meaning of their own in a pattern. *)
Definition is_re_special (c : ascii) : bool :=
  existsb (Ascii.eqb c) (list_ascii_of_string ".^$*+?{}[]\|()").

(** The outcome of [check_docstring]: [True], or the pair [(False, msg)]. *)
Inductive docstring_check : Type :=
| DocTrue
| DocFalse (msg : string).

(** One report entry of a file. *)
Inductive finding : Type :=
| DocstringFinding (msg : string)
| FormsFinding (msg : string)
| LabelsFinding (labels : list (option string * string)).

(** ** Sample data, used to run the definitions *)

Definition sample_metadata : vocabulary :=
  [ ("01_number",
     [ ("singular", FormEntry (Some "Q110786") (Some "Singular"));
       ("plural", FormEntry (Some "Q146786") (Some "Plural")) ]);
    ("02_gender",
     [ ("feminine", FormEntry (Some "Q1775415") (Some "Feminine"));
       ("masculine", FormEntry (Some "Q499327") (Some "Masculine")) ]);
    ("03_case",
     [ ("nominative", FormEntry (Some "Q131105") (Some "Nominative"));
       ("genitive", FormEntry (Some "Q146233") (Some "Genitive")) ]) ].

(** A set order that CPython may follow: the distinct elements, each at
    its last occurrence. *)
Definition sample_set_iteration (l : list string) : list string := distinct l.

(** A stand-in for [re.compile] on the pattern built from a form label,
    for the patterns made of plain characters, "." and ".*".  Patterns
    with another special character are outside the stand-in: it answers
    them all with the compilation error, which [re.compile] raises for
    some of them, an unbalanced parenthesis for one. *)
Fixpoint sample_compile_interpolated (pattern : string) : pyresult regex :=
  match pattern with
  | EmptyString => Ok (Lit EmptyString)
  | String c rest =>
      if Ascii.eqb c "." then
        match rest with
        | String d rest' =>
            if Ascii.eqb d "*"
            then r <- sample_compile_interpolated rest' ;; Ok (Rep true 0 is_dot +++ r)
            else r <- sample_compile_interpolated rest ;; Ok (Cls is_dot +++ r)
        | EmptyString => Ok (Cls is_dot)
        end
      else if is_re_special c then Raise ReError
      else r <- sample_compile_interpolated rest ;; Ok (Lit (String c EmptyString) +++ r)
  end.

Definition duplicates_query : string :=
  "SELECT ?lexeme ?lexemeID ?plural ?plural ?singular ?singular WHERE { }".

Definition single_duplicate_query : string :=
  "SELECT ?lexeme ?lexemeID ?noun ?singular ?singular WHERE { ?lexeme wikibase:lemma ?noun . }".

Definition lexeme_query : string :=
  "SELECT ?a ?b ?lexeme WHERE { }".

Definition undefined_query : string :=
  "SELECT ?lexeme ?lexemeID ?noun ?plural WHERE { ?lexeme wikibase:lemma ?noun . }".

Definition shifted_gender_query : string :=
  "SELECT ?lexeme ?lexemeID ?auxiliaryVerb ?infinitive ?gender ?participle WHERE { ?lexeme wikibase:lemma ?infinitive .  OPTIONAL { ?lexeme ontolex:lexicalForm ?participleForm . ?participleForm ontolex:representation ?participle ; wikibase:grammaticalFeature wd:Q1 . } }".


Definition aligned_gender_query : string :=
  "SELECT ?lexeme ?lexemeID ?noun ?plural ?gender WHERE { ?lexeme wikibase:lemma ?noun .  OPTIONAL { ?lexeme ontolex:lexicalForm ?pluralForm . ?pluralForm ontolex:representation ?plural ; wikibase:grammaticalFeature wd:Q146786 . } }".

Definition unbound_label_form : string :=
  "?lexeme ontolex:lexicalForm ?singularForm . singularForm ontolex:representation singular ;".

Definition no_prefix_qid_form : string :=
  "wikibase:grammaticalFeature Q110786 .".

Definition unbalanced_label_form : string :=
  "?lexeme ontolex:lexicalForm ?plural(Form . ?plural(Form ontolex:representation ?plural ;".

Definition dotted_label_form : string :=
  "?lexeme ontolex:lexicalForm ?a.b . ?a.b ontolex:representation ?a.b ;".

Definition first_plural_form : string :=
  "
    ?lexeme ontolex:lexicalForm ?pluralForm .
    ?pluralForm ontolex:representation ?plural ;
      wikibase:grammaticalFeature wd:Q110786 .
  ".

Definition second_plural_form : string :=
  "
    ?lexeme ontolex:lexicalForm ?pluralForm .
    ?pluralForm ontolex:representation ?plural ;
      wikibase:grammaticalFeature wd:Q146786 .
  ".

Definition good_document : string :=
  "# tool: scribe-data
# All German (Q188) nouns (Q1084) and the given forms.
# Enter this query at https://query.wikidata.org/.
SELECT".

Definition bad_summary_document : string :=
  "# tool: scribe-data
# All German (Q188) nouns (Q1084) and the given forms
# Enter this query at https://query.wikidata.org/.
SELECT".

Definition partial_metadata : vocabulary :=
  [ ("01_number",
     [ ("singular", FormEntry (Some "Q110786") (Some "Singular"));
       ("dual", FormEntry None (Some "Dual")) ]) ].

Definition unreturned_query : string :=
  "SELECT ?lexeme ?lexemeID ?noun WHERE { ?lexeme wikibase:lemma ?noun .  OPTIONAL { ?lexeme ontolex:lexicalForm ?pluralForm . ?pluralForm ontolex:representation ?plural ; wikibase:grammaticalFeature wd:Q146786 . } }".

Definition no_select_query : string :=
  "ASK WHERE { ?lexeme wikibase:lemma ?noun . }".

Definition short_document : string :=
  "# tool: scribe-data
# All German (Q188) nouns (Q1084) and the given forms.
".

Definition unlabeled_form : string :=
  "
    ?lexeme ontolex:lexicalForm ?pluralForm .
    ?pluralForm ontolex:representation ?plural;
      wikibase:grammaticalFeature wd:Q146786 .
  ".

Definition query_document (form_text : string) : string :=
  ("# tool: scribe-data
# All German (Q188) nouns (Q1084) and the given forms.
# Enter this query at https://query.wikidata.org/.

SELECT
  (REPLACE(STR(?lexeme), 'http://www.wikidata.org/entity/', '') AS ?lexemeID)
  ?noun
  ?plural

WHERE {
  ?lexeme dct:language wd:Q188 ;
    wikibase:lexicalCategory wd:Q1084 ;
    wikibase:lemma ?noun .

  OPTIONAL {" ++ form_text ++ "}
}
")%string.

Definition clean_document : string := query_document second_plural_form.

Definition unlabeled_document : string := query_document unlabeled_form.

Section Validator.

(** The vocabulary loaded from [lexeme_form_metadata.json]. *)
Variable lexeme_form_metadata : vocabulary.

(** The order in which a [set] of strings built from a list is iterated.
    CPython fixes none: it follows the hashes of the strings. *)
Variable set_iteration : list string -> list string.

(** Whatever the order, a set yields each of its elements once. *)
Hypothesis set_iteration_NoDup : forall l, NoDup (set_iteration l).
Hypothesis set_iteration_In : forall l x, In x (set_iteration l) <-> In x l.

(** What [re] makes of a pattern text in which an interpolated form label
    brings special characters: a compiled pattern or [re.error]. *)
Variable compile_interpolated : string -> pyresult regex.

Definition lexeme_form_qid_order : list string :=
  flat_map
    (fun kv =>
       flat_map
         (fun sub => match qid (snd sub) with Some q => [q] | None => [] end)
         (snd kv))
    lexeme_form_metadata.

(** *** Extract forms *)

(** [optional_pattern]: two whitespace characters, [OPTIONAL], whitespace
    if any, then between braces group 1, the characters up to the first
    closing brace. *)
Definition optional_pattern : regex :=
  Cls is_space +++ Cls is_space +++ Lit "OPTIONAL" +++ Rep true 0 is_space
  +++ Lit "{" +++ Grp (Rep true 0 (not_char "}"%char)) +++ Lit "}".

(** The argument is the content of the file, [None] when reading it
    fails. *)
Definition extract_forms_from_sparql (file : option string) : option (list string) :=
  match file with
  | Some query_text => Some (map group1_str (finditer optional_pattern query_text))
  | None => None
  end.

(** *** Extract label *)

(** [onto_rep_pattern]: [ontolex:representation .* ;] *)
Definition onto_rep_pattern : regex :=
  Lit "ontolex:representation " +++ Rep true 0 is_dot +++ Lit " ;".

(** [rep_label_pattern]: [.*], a question mark, group 1 [.*], a
    semicolon. *)
Definition rep_label_pattern : regex :=
  Rep true 0 is_dot +++ Lit "?" +++ Grp (Rep true 0 is_dot) +++ Lit ";".

Definition extract_form_rep_label (form_text : string) : option string :=
  match search onto_rep_pattern form_text with
  | Some line_match =>
      match search rep_label_pattern (group0 line_match) with
      | Some label_match => Some (strip (group1_str label_match))
      | None => None
      end
  | None => None
  end.

(** *** Extract QIDs *)

(** [qids_pattern]: [wikibase:grammaticalFeature .+ \.] *)
Definition qids_pattern : regex :=
  Lit "wikibase:grammaticalFeature " +++ Rep true 1 is_dot +++ Lit " .".

Definition extract_form_qids (form_text : string) : pyresult (option (list string)) :=
  match search qids_pattern form_text with
  | Some m =>
      l <- mapM (fun q => a <- item 1 (split "wd:" q) ;; item 0 (split " ." a))
                (split ", " (group0 m)) ;;
      Ok (Some l)
  | None => Ok None
  end.

(** *** Check label *)

(** [form_label_line_pattern]: [\?lexeme ontolex:lexicalForm .* \.] *)
Definition form_label_line_pattern : regex :=
  Lit "?lexeme ontolex:lexicalForm " +++ Rep true 0 is_dot +++ Lit " .".

(** [form_label_pattern]: [.*], a question mark, group 1 [.*], a full
    stop. *)
Definition form_label_pattern : regex :=
  Rep true 0 is_dot +++ Lit "?" +++ Grp (Rep true 0 is_dot) +++ Lit ".".

(** [{form_label} ontolex:representation .* ;], compiled.  A label of
    plain characters stands for itself. *)
Definition scoped_onto_rep_pattern (form_label : string) : pyresult regex :=
  if forallb (fun c => negb (is_re_special c)) (list_ascii_of_string form_label)
  then Ok (Lit form_label +++ Lit " ontolex:representation "
           +++ Rep true 0 is_dot +++ Lit " ;")
  else compile_interpolated (form_label ++ " ontolex:representation .* ;")%string.

Definition check_form_label (form_text : string) : pyresult bool :=
  match search form_label_line_pattern form_text with
  | None => Ok false
  | Some line_match =>
      match search form_label_pattern (group0 line_match) with
      | None => Raise UnboundLocalError
      | Some label_match =>
          let form_label := strip (group1_str label_match) in
          let current_form_rep_label := hd EmptyString (split "Form" form_label) in
          pattern <- scoped_onto_rep_pattern form_label ;;
          match search pattern form_text with
          | None => Ok false
          | Some line_match' =>
              match search rep_label_pattern (group0 line_match') with
              | Some label_match' =>
                  let form_rep_label := strip (group1_str label_match') in
                  Ok (String.eqb form_rep_label current_form_rep_label)
              | None => Raise UnboundLocalError
              end
          end
      end
  end.

(** *** Check format *)

(** [\s,] *)
Definition space_comma_pattern : regex := Cls is_space +++ Lit ",".

(** [\S[.;]] *)
Definition nonspace_stop_pattern : regex :=
  Cls (fun c => negb (is_space c))
  +++ Cls (fun c => Ascii.eqb c "."%char || Ascii.eqb c ";"%char).

Definition check_query_formatting (form_text : string) : bool :=
  match search space_comma_pattern form_text with
  | Some _ => false
  | None =>
      match search nonspace_stop_pattern form_text with
      | Some _ => false
      | None => true
      end
  end.

(** *** Correct label *)

(** The body of the innermost loop: [qid_label["qid"]] and
    [qid_label["label"]] raise [KeyError] on an entry without the key. *)
Definition add_label (q : string) (correct_label : string) (qid_label : string * form_entry) : pyresult string :=
  match qid (snd qid_label) with
  | None => Raise KeyError
  | Some q' =>
      if String.eqb q q' then
        match label (snd qid_label) with
        | Some l => Ok (correct_label ++ l)%string
        | None => Raise KeyError
        end
      else Ok correct_label
  end.

Definition add_category_labels (q : string) (correct_label : string)
  (category_vals : string * list (string * form_entry)) : pyresult string :=
  foldM (add_label q) (snd category_vals) correct_label.

Definition add_qid_labels (correct_label : string) (q : string) : pyresult string :=
  foldM (add_category_labels q) lexeme_form_metadata correct_label.

Definition not_included_message (not_included_qids : list string) : string :=
  let qid_label := if (1 <? List.length not_included_qids)%nat then "QIDs" else "QID" in
  (qid_label ++ " " ++ join ", " not_included_qids
   ++ " not included in lexeme_form.metadata.json")%string.

(** [qids] is [None] when [extract_form_qids] found no feature statement. *)
Definition return_correct_form_label (qids : option (list string)) : pyresult string :=
  match qids with
  | None | Some [] => Ok "Invalid query formatting found"
  | Some qids =>
      if negb (set_le qids lexeme_form_qid_order) then
        let not_included_qids := sorted (set_diff qids lexeme_form_qid_order) in
        Ok (not_included_message not_included_qids)
      else
        let qids_ordered := filter (fun q => mem q qids) lexeme_form_qid_order in
        correct_label <- foldM add_qid_labels qids_ordered EmptyString ;;
        Ok (lower_first correct_label)
  end.

(** *** Validate forms *)

(** [select_pattern]: [SELECT\s+], group 1 lazy [.*?] under [re.DOTALL],
    [\s+WHERE]. *)
Definition select_pattern : regex :=
  Lit "SELECT" +++ Rep true 1 is_space +++ Grp (Rep false 0 any_char)
  +++ Rep true 1 is_space +++ Lit "WHERE".

(** A question mark and group 1 [\w+]. *)
Definition variable_pattern : regex := Lit "?" +++ Grp (Rep true 1 is_word).

(** [dt_pattern]: [WHERE\s*\{], lazy [[^}]*?], [wikibase:lemma\s*\?\s*],
    group 1 [\w+], [\s*[;.]\s*]. *)
Definition dt_pattern : regex :=
  Lit "WHERE" +++ Rep true 0 is_space +++ Lit "{"
  +++ Rep false 0 (not_char "}"%char) +++ Lit "wikibase:lemma"
  +++ Rep true 0 is_space +++ Lit "?" +++ Rep true 0 is_space
  +++ Grp (Rep true 1 is_word) +++ Rep true 0 is_space
  +++ Cls (fun c => Ascii.eqb c ";"%char || Ascii.eqb c "."%char)
  +++ Rep true 0 is_space.

(** [forms_pattern]: [ontolex:representation \?] and group 1 [[^ ;]+]. *)
Definition forms_pattern : regex :=
  Lit "ontolex:representation ?"
  +++ Grp (Rep true 1 (fun c => negb (Ascii.eqb c " "%char || Ascii.eqb c ";"%char))).

(** [select_vars] once the first two variables are dropped; [None] when
    the text has no SELECT ... WHERE span. *)
Definition select_vars_of (query_text : string) : option (list string) :=
  match search select_pattern query_text with
  | Some select_match =>
      Some (skipn 2 (findall variable_pattern (group1_str select_match)))
  | None => None
  end.

(** [where_vars] before the labeling-service variables are handled. *)
Definition natural_where_vars (query_text : string) : list string :=
  let dt_match := findall dt_pattern query_text in
  (if list_eqb dt_match ["lemma"] then ["preposition"]
   else match dt_match with
        | v :: _ => [v]
        | [] => []
        end)
  ++ findall forms_pattern query_text.

(** One turn of the loop over ["case"], ["gender"], ["auxiliaryVerb"]. *)
Definition insert_labeling_var (select_vars where_vars : list string) (var : string) : list string :=
  if mem var select_vars then
    match index var select_vars with
    | Some i => insert i var where_vars
    | None => where_vars
    end
  else where_vars.

Definition labeling_vars : list string := ["case"; "gender"; "auxiliaryVerb"].

(** [where_vars] after that loop. *)
Definition where_vars_of (select_vars : list string) (query_text : string) : list string :=
  fold_left (insert_labeling_var select_vars) labeling_vars
    (natural_where_vars query_text).

Definition not_lexeme (var : string) : bool := negb (mem var ["lexeme"; "lexemeID"]).

Definition order_message : string :=
  "The order of variables in the SELECT statement does not match their order in the WHERE clause.".

Definition validate_forms (query_text : string) : string :=
  match select_vars_of query_text with
  | None => "Invalid query format: no SELECT match"
  | Some select_vars =>
      let where_vars := where_vars_of select_vars query_text in
      let uniqueness_forms_check :=
        negb (List.length select_vars =? List.length (distinct select_vars))%nat in
      let undefined_forms := set_diff select_vars where_vars in
      let unreturned_forms := set_diff where_vars select_vars in
      let select_vars := filter not_lexeme select_vars in
      let where_vars := filter not_lexeme where_vars in
      let error_messages :=
        if uniqueness_forms_check then
          let duplicates :=
            filter (fun var => (1 <? count var select_vars)%nat) select_vars in
          [("Duplicate forms found in SELECT: "
            ++ join ", " (set_iteration duplicates))%string]
        else
          match undefined_forms, unreturned_forms with
          | _ :: _, _ =>
              [("Undefined forms found in SELECT: "
                ++ join ", " (sorted undefined_forms))%string]
          | [], _ :: _ =>
              [("Defined but unreturned forms found: "
                ++ join ", " (sorted unreturned_forms))%string]
          | [], [] =>
              if negb (list_eqb select_vars where_vars) then [order_message]
              else []
          end in
      match error_messages with
      | [] => EmptyString
      | _ :: _ => join (String LF EmptyString) error_messages
      end
  end.

(** *** Docstring format *)

(** The three patterns, each anchored with [^] and ending in a newline. *)
Definition tool_line_pattern : regex :=
  Bol +++ Lit "# tool: scribe-data" +++ Lit (String LF EmptyString).

Definition summary_line_pattern : regex :=
  Bol +++ Lit "# All " +++ Grp (Rep false 1 is_dot) +++ Lit " (Q"
  +++ Rep true 1 is_digit +++ Lit ") " +++ Rep true 1 is_dot +++ Lit " (Q"
  +++ Rep true 1 is_digit +++ Lit ") and the given forms."
  +++ Lit (String LF EmptyString).

Definition enter_line_pattern : regex :=
  Bol +++ Lit "# Enter this query at https://query.wikidata.org/."
  +++ Lit (String LF EmptyString).

(** [patterns]: each pattern with the text that introduces its error. *)
Definition docstring_patterns : list (regex * string) :=
  [ (tool_line_pattern, "Error in line 1:");
    (summary_line_pattern, "Error in line 2:");
    (enter_line_pattern, "Error in line 3:") ].

(** The generator handed to [next], from its [i]-th pattern on:
    [query_lines[i]] raises [IndexError] when the text has no such line. *)
Fixpoint check_docstring_from (query_lines : list string) (i : nat)
  (patterns : list (regex * string)) : pyresult docstring_check :=
  match patterns with
  | [] => Ok DocTrue
  | (pattern, error_line_number) :: patterns' =>
      match nth_error query_lines i with
      | None => Raise IndexError
      | Some line =>
          match rmatch pattern line with
          | None => Ok (DocFalse (error_line_number ++ " " ++ strip line)%string)
          | Some _ => check_docstring_from query_lines (S i) patterns'
          end
      end
  end.

Definition check_docstring (query_text : string) : pyresult docstring_check :=
  check_docstring_from (splitlines query_text) 0 docstring_patterns.

(** *** Main validation *)

(** The test that makes an optional block a form block. *)
Definition is_form_block (form_text : string) : bool :=
  contains "ontolex:lexicalForm" form_text
  && contains "ontolex:representation" form_text.

(** The checks run on one form block: the key and the value stored. *)
Definition check_form (form_text : string) : pyresult (option string * form_check) :=
  let correct_formatting := check_query_formatting form_text in
  let form_rep_label := extract_form_rep_label form_text in
  check <- check_form_label form_text ;;
  qids <- extract_form_qids form_text ;;
  correct_form_rep_label <- return_correct_form_label qids ;;
  Ok (form_rep_label,
      FormCheck check correct_formatting qids correct_form_rep_label).

(** One turn of the loop over the optional blocks. *)
Definition add_form_check (query_form_check_dict : check_dict) (form_text : string) : pyresult check_dict :=
  if is_form_block form_text then
    kv <- check_form form_text ;;
    Ok (dict_set (fst kv) (snd kv) query_form_check_dict)
  else Ok query_form_check_dict.

(** [query_form_check_dict] once the loop over the blocks is done. *)
Definition query_form_check_dict_of (forms : list string) : pyresult check_dict :=
  foldM add_form_check forms [].

Definition formatting_message : string :=
  "Invalid query formatting found - please put spaces before all periods and semicolons and also remove spaces before commas.".

(** The entry of [incorrect_query_labels] for a key, if it has one. *)
Definition incorrect_query_label (kv : option string * form_check) : list (option string * string) :=
  let (k, v) := kv in
  if negb (correct_formatting v) then [(k, formatting_message)]
  else if negb (key_eqb k (Some (correct_form_rep_label v)))
  then [(k, correct_form_rep_label v)]
  else if negb (form_rep_match v)
  then [(k, "Form and representation labels don't match")]
  else [].

(** The findings of one file, in the order in which [check_query_forms]
    appends them to [error_output].  Numbering them and printing the
    report is left out. *)
Definition check_query_file (query_text : string) : pyresult (list finding) :=
  docstring_check_result <- check_docstring query_text ;;
  let docstring_finding :=
    match docstring_check_result with
    | DocTrue => []
    | DocFalse msg => [DocstringFinding msg]
    end in
  let forms_finding :=
    match validate_forms query_text with
    | EmptyString => []
    | msg => [FormsFinding msg]
    end in
  labels_finding <-
    match extract_forms_from_sparql (Some query_text) with
    | Some (form_text :: forms) =>
        query_form_check_dict <- query_form_check_dict_of (form_text :: forms) ;;
        match flat_map incorrect_query_label query_form_check_dict with
        | [] => Ok []
        | incorrect_query_labels => Ok [LabelsFinding incorrect_query_labels]
        end
    | _ => Ok []
    end ;;
  Ok (docstring_finding ++ forms_finding ++ labels_finding).

(** *** Notions used to state the properties *)

(** Every entry of the vocabulary holds both keys. *)
Definition complete_vocabulary : Prop :=
  forall category sub, In category lexeme_form_metadata -> In sub (snd category) ->
    qid (snd sub) <> None /\ label (snd sub) <> None.

(** The label fragments of the entries whose code is [q], in the order of
    the vocabulary. *)
Definition fragments_of (q : string) : list string :=
  flat_map
    (fun category =>
       flat_map
         (fun sub =>
            match qid (snd sub), label (snd sub) with
            | Some q', Some l => if String.eqb q q' then [l] else []
            | _, _ => []
            end)
         (snd category))
    lexeme_form_metadata.

(** The fragments of the codes of [qids], taken in the canonical order. *)
Definition canonical_label (qids : list string) : string :=
  String.concat EmptyString
    (flat_map fragments_of (filter (fun q => mem q qids) lexeme_form_qid_order)).

(** Line [i] (counted from 0) of a header matches its pattern. *)
Definition docstring_line_ok (i : nat) (line : string) : bool :=
  match nth_error docstring_patterns i with
  | Some (pattern, _) =>
      match rmatch pattern line with Some _ => true | None => false end
  | None => true
  end.

(** The text that introduces the error of line [i] (counted from 0). *)
Definition error_in_line (i : nat) : string :=
  ("Error in line " ++ String (ascii_of_nat (49 + i)) ":")%string.

(** Somewhere in [s] a character of class [p] is followed at once by one
    of class [q]. *)
Definition has_adjacent (p q : ascii -> bool) (s : string) : Prop :=
  exists l c d t,
    s = (l ++ String c (String d t))%string /\ p c = true /\ q d = true.

Definition strictly_ascending (l : list string) : Prop :=
  StronglySorted (fun a b => String.ltb a b = true) l.

(** *** The run over all files *)

(** [f"{k}"] for a key of [query_form_check_dict]. *)
Definition str_key (k : option string) : string :=
  match k with
  | Some label => label
  | None => "None"
  end.

(** The text of a finding inside its report entry: the tuple returned by
    [check_docstring] as [str] prints it, the message of
    [validate_forms], or the lines of [incorrect_query_labels]. *)
Definition render_finding (f : finding) : string :=
  match f with
  | DocstringFinding msg => ("(False, " ++ repr msg ++ ")")%string
  | FormsFinding msg => msg
  | LabelsFinding labels =>
      join (String LF "  - ")
        (map (fun km => (str_key (fst km) ++ " : " ++ snd km)%string) labels)
  end.

(** [error_output += ...] and [index += 1] for one finding. *)
Definition append_entry (query_file_str : string) (state : string * nat) (f : finding) : string * nat :=
  let (error_output, index) := state in
  ((error_output ++ String LF (str_nat index) ++ ". " ++ query_file_str ++ ":"
    ++ String LF "  - " ++ render_finding f ++ String LF EmptyString)%string,
   S index).






(** The spacing rule broken by two adjacent characters: a comma after
    whitespace, or a full stop or a semicolon after anything else. *)
Definition spacing_violation (c d : ascii) : bool :=
  (is_space c && Ascii.eqb d ","%char)
  || (negb (is_space c) && (Ascii.eqb d "."%char || Ascii.eqb d ";"%char)).

(** No two adjacent characters of [s] break the spacing rule. *)
Fixpoint well_spaced (s : string) : bool :=
  match s with
  | EmptyString => true
  | String c s' =>
      match s' with
      | EmptyString => true
      | String d _ => negb (spacing_violation c d) && well_spaced s'
      end
  end.

(** ** Properties *)

(** *** Lists, sets and strings *)

Lemma string_app_assoc (a b c : string) : ((a ++ b) ++ c = a ++ (b ++ c))%string.
Proof. induction a as [|x a IH]; simpl; [reflexivity | now rewrite IH]. Qed.

Lemma string_app_nil_r (a : string) : (a ++ EmptyString)%string = a.
Proof. induction a as [|x a IH]; simpl; [reflexivity | now rewrite IH]. Qed.

Lemma concat_empty_app (l1 l2 : list string) :
  String.concat EmptyString (l1 ++ l2)
  = (String.concat EmptyString l1 ++ String.concat EmptyString l2)%string.
Proof.
  induction l1 as [|a l1 IH]; simpl; [reflexivity|].
  destruct l1 as [|b l1].
  - simpl in *. destruct l2; simpl; [now rewrite string_app_nil_r | reflexivity].
  - change ((b :: l1) ++ l2) with (b :: (l1 ++ l2)) in *.
    rewrite IH. simpl. now rewrite string_app_assoc.
Qed.

Lemma mem_In (x : string) (l : list string) : mem x l = true <-> In x l.
Proof.
  unfold mem. rewrite existsb_exists. split.
  - intros [y [Hin Heq]]. apply String.eqb_eq in Heq. now subst.
  - intros Hin. exists x. split; [assumption | apply String.eqb_refl].
Qed.

Lemma mem_not_In (x : string) (l : list string) : mem x l = false <-> ~ In x l.
Proof.
  rewrite <- mem_In. destruct (mem x l); split; intros H; congruence.
Qed.

Lemma mem_same_elements (l1 l2 : list string) (x : string) :
  (forall y, In y l1 <-> In y l2) -> mem x l1 = mem x l2.
Proof.
  intros H. destruct (mem x l2) eqn:E.
  - apply mem_In. apply H. now apply mem_In.
  - apply mem_not_In. intros Hin. apply mem_not_In in E. apply E. now apply H.
Qed.

Lemma set_le_spec (a b : list string) :
  set_le a b = true <-> forall x, In x a -> In x b.
Proof.
  unfold set_le. rewrite forallb_forall. split; intros H x Hx.
  - apply mem_In. now apply H.
  - apply mem_In. now apply H.
Qed.

Lemma set_diff_In (a b : list string) (x : string) :
  In x (set_diff a b) <-> In x a /\ ~ In x b.
Proof.
  unfold set_diff, distinct. rewrite nodup_In, filter_In.
  rewrite negb_true_iff, mem_not_In. reflexivity.
Qed.

Lemma set_diff_NoDup (a b : list string) : NoDup (set_diff a b).
Proof. apply NoDup_nodup. Qed.

(** The order of strings. *)

Lemma string_compare_not_Gt_trans (a b c : string) :
  String.compare a b <> Gt -> String.compare b c <> Gt -> String.compare a c <> Gt.
Proof.
  revert b c. induction a as [|x a IH]; intros [|y b] [|z c]; simpl; try congruence.
  unfold Ascii.compare.
  destruct (N.compare_spec (N_of_ascii x) (N_of_ascii y));
    destruct (N.compare_spec (N_of_ascii y) (N_of_ascii z));
    destruct (N.compare_spec (N_of_ascii x) (N_of_ascii z));
    intros; try congruence; try lia; eauto.
Qed.

Lemma string_leb_trans (a b c : string) :
  String.leb a b = true -> String.leb b c = true -> String.leb a c = true.
Proof.
  unfold String.leb. intros Hab Hbc.
  assert (H : String.compare a c <> Gt).
  { apply (string_compare_not_Gt_trans a b c).
    - destruct (String.compare a b); congruence.
    - destruct (String.compare b c); congruence. }
  destruct (String.compare a c); congruence.
Qed.

Lemma string_leb_neq_ltb (a b : string) :
  String.leb a b = true -> a <> b -> String.ltb a b = true.
Proof.
  unfold String.leb, String.ltb. intros Hle Hne.
  destruct (String.compare a b) eqn:E; try congruence.
  apply String.compare_eq_iff in E. congruence.
Qed.

Lemma string_leb_false (a b : string) :
  String.leb a b = false -> String.leb b a = true.
Proof.
  intros H. destruct (String.leb_total a b) as [H'|H']; congruence.
Qed.

(** [sorted] sorts. *)

Lemma insert_sorted_Permutation (x : string) (l : list string) :
  Permutation (x :: l) (insert_sorted x l).
Proof.
  induction l as [|y l IH]; simpl; [apply Permutation_refl|].
  destruct (String.leb x y); [apply Permutation_refl|].
  eapply perm_trans; [apply perm_swap|]. now apply perm_skip.
Qed.

Lemma sorted_Permutation (l : list string) : Permutation l (sorted l).
Proof.
  induction l as [|x l IH]; simpl; [constructor|].
  eapply perm_trans; [apply perm_skip, IH | apply insert_sorted_Permutation].
Qed.

Lemma sorted_In (l : list string) (x : string) : In x (sorted l) <-> In x l.
Proof.
  split; intros H.
  - eapply Permutation_in; [apply Permutation_sym, sorted_Permutation | exact H].
  - eapply Permutation_in; [apply sorted_Permutation | exact H].
Qed.

Lemma insert_sorted_StronglySorted (x : string) (l : list string) :
  StronglySorted (fun a b => String.leb a b = true) l ->
  StronglySorted (fun a b => String.leb a b = true) (insert_sorted x l).
Proof.
  induction l as [|y l IH]; intros Hs; simpl.
  - constructor; constructor.
  - apply StronglySorted_inv in Hs. destruct Hs as [Hl Hy].
    destruct (String.leb x y) eqn:E.
    + constructor; [constructor; assumption|].
      constructor; [assumption|].
      rewrite Forall_forall in *. intros z Hz.
      eapply string_leb_trans; [exact E | now apply Hy].
    + constructor; [now apply IH|].
      rewrite Forall_forall in *. intros z Hz.
      apply (Permutation_in _ (Permutation_sym (insert_sorted_Permutation x l))) in Hz.
      destruct Hz as [<-|Hz]; [now apply string_leb_false | now apply Hy].
Qed.

Lemma sorted_StronglySorted (l : list string) :
  StronglySorted (fun a b => String.leb a b = true) (sorted l).
Proof.
  induction l as [|x l IH]; simpl; [constructor|].
  now apply insert_sorted_StronglySorted.
Qed.

Lemma sorted_strictly_ascending (l : list string) :
  NoDup l -> strictly_ascending (sorted l).
Proof.
  intros Hnd.
  assert (Hnd' : NoDup (sorted l))
    by (eapply Permutation_NoDup; [apply sorted_Permutation | exact Hnd]).
  pose proof (sorted_StronglySorted l) as Hs.
  unfold strictly_ascending. induction Hs as [|a s Hs IH Ha]; [constructor|].
  apply NoDup_cons_iff in Hnd'. destruct Hnd' as [Hna Hnd'].
  constructor; [now apply IH|].
  rewrite Forall_forall in *. intros z Hz.
  apply string_leb_neq_ltb; [now apply Ha|]. intros ->. now apply Hna.
Qed.

Lemma sorted_length (l : list string) : List.length (sorted l) = List.length l.
Proof. symmetry. apply Permutation_length, sorted_Permutation. Qed.

(** *** The label of a set of codes *)

Lemma add_label_complete (q : string) (subs : list (string * form_entry)) (acc : string) :
  (forall sub, In sub subs -> qid (snd sub) <> None /\ label (snd sub) <> None) ->
  foldM (add_label q) subs acc
  = Ok (acc ++ String.concat EmptyString
                 (flat_map
                    (fun sub =>
                       match qid (snd sub), label (snd sub) with
                       | Some q', Some l => if String.eqb q q' then [l] else []
                       | _, _ => []
                       end) subs))%string.
Proof.
  revert acc. induction subs as [|sub subs IH]; intros acc Hc; simpl.
  - now rewrite string_app_nil_r.
  - destruct (Hc sub (or_introl eq_refl)) as [Hq Hl].
    unfold add_label at 1.
    destruct (qid (snd sub)) as [q'|]; [|congruence].
    destruct (label (snd sub)) as [l|]; [|congruence].
    rewrite concat_empty_app.
    destruct (String.eqb q q'); simpl.
    + rewrite IH by (intros; apply Hc; now right).
      now rewrite string_app_assoc.
    + rewrite IH by (intros; apply Hc; now right). reflexivity.
Qed.

Lemma add_category_labels_complete (q : string) (categories : vocabulary) (acc : string) :
  (forall category sub, In category categories -> In sub (snd category) ->
     qid (snd sub) <> None /\ label (snd sub) <> None) ->
  foldM (add_category_labels q) categories acc
  = Ok (acc ++ String.concat EmptyString
                 (flat_map
                    (fun category =>
                       flat_map
                         (fun sub =>
                            match qid (snd sub), label (snd sub) with
                            | Some q', Some l => if String.eqb q q' then [l] else []
                            | _, _ => []
                            end)
                         (snd category))
                    categories))%string.
Proof.
  revert acc. induction categories as [|category categories IH]; intros acc Hc; simpl.
  - now rewrite string_app_nil_r.
  - unfold add_category_labels at 1.
    rewrite add_label_complete by (intros; eapply Hc; [now left | eassumption]).
    simpl. rewrite IH by (intros; eapply Hc; [right; eassumption | eassumption]).
    now rewrite concat_empty_app, string_app_assoc.
Qed.

Lemma add_qid_labels_complete (ordered : list string) (acc : string) :
  complete_vocabulary ->
  foldM add_qid_labels ordered acc
  = Ok (acc ++ String.concat EmptyString (flat_map fragments_of ordered))%string.
Proof.
  intros Hc. revert acc. induction ordered as [|q ordered IH]; intros acc; simpl.
  - now rewrite string_app_nil_r.
  - unfold add_qid_labels at 1.
    rewrite add_category_labels_complete by exact Hc.
    simpl. rewrite IH. fold (fragments_of q).
    now rewrite concat_empty_app, string_app_assoc.
Qed.

(** C8: on an empty collection of codes [return_correct_form_label]
    returns exactly the text "Invalid query formatting found". *)
Theorem return_correct_form_label_empty :
  return_correct_form_label (Some []) = Ok "Invalid query formatting found".
Proof. reflexivity. Qed.

(** C1: for codes that all occur in the flattened code order of the
    vocabulary, [return_correct_form_label] depends on the set of codes
    only: two permutations of the same codes give the same result.  When
    every entry of the vocabulary holds a code and a label, that result is
    the concatenation of the label fragments of the codes taken in the
    canonical order, with its first character lower-cased. *)
Theorem return_correct_form_label_order_independent (qids1 qids2 : list string) :
  Permutation qids1 qids2 ->
  (forall q, In q qids1 -> In q lexeme_form_qid_order) ->
  return_correct_form_label (Some qids1) = return_correct_form_label (Some qids2)
  /\ (qids1 <> [] -> complete_vocabulary ->
      return_correct_form_label (Some qids1)
      = Ok (lower_first (canonical_label qids1))).
Proof.
  intros Hperm Hin.
  assert (Hsame : forall y, In y qids1 <-> In y qids2).
  { intros y. split; apply Permutation_in; [exact Hperm | now apply Permutation_sym]. }
  assert (Hle1 : set_le qids1 lexeme_form_qid_order = true) by now apply set_le_spec.
  assert (Hle2 : set_le qids2 lexeme_form_qid_order = true).
  { apply set_le_spec. intros x Hx. apply Hin. now apply Hsame. }
  assert (Hfilter : filter (fun q => mem q qids1) lexeme_form_qid_order
                    = filter (fun q => mem q qids2) lexeme_form_qid_order).
  { apply filter_ext. intros q. now apply mem_same_elements. }
  split.
  - destruct qids1 as [|a qids1].
    + apply Permutation_nil in Hperm. now subst.
    + destruct qids2 as [|b qids2].
      * apply Permutation_sym, Permutation_nil in Hperm. discriminate.
      * unfold return_correct_form_label.
        rewrite Hle1, Hle2. simpl negb. cbv iota. now rewrite Hfilter.
  - intros Hne Hc. destruct qids1 as [|a qids1]; [congruence|].
    unfold return_correct_form_label. rewrite Hle1. simpl negb. cbv iota.
    rewrite add_qid_labels_complete by exact Hc. reflexivity.
Qed.

(** C7: for a non-empty list of codes of which at least one is absent from
    the flattened code order, [return_correct_form_label] returns an error
    text that lists exactly the absent codes, each once and in ascending
    order, after "QID" when one code is absent and "QIDs" when several
    are, and that ends with "not included in lexeme_form.metadata.json". *)
Theorem return_correct_form_label_not_included (qids : list string) :
  qids <> [] ->
  (exists q, In q qids /\ ~ In q lexeme_form_qid_order) ->
  exists absent,
    (forall q, In q absent <-> In q qids /\ ~ In q lexeme_form_qid_order)
    /\ strictly_ascending absent
    /\ return_correct_form_label (Some qids)
       = Ok ((if (List.length absent =? 1)%nat then "QID" else "QIDs")
             ++ " " ++ join ", " absent
             ++ " not included in lexeme_form.metadata.json")%string.
Proof.
  intros Hne [q0 [Hq0 Habs]].
  exists (sorted (set_diff qids lexeme_form_qid_order)).
  assert (Hspec : forall q, In q (sorted (set_diff qids lexeme_form_qid_order))
                            <-> In q qids /\ ~ In q lexeme_form_qid_order).
  { intros q. now rewrite sorted_In, set_diff_In. }
  split; [exact Hspec|]. split; [apply sorted_strictly_ascending, set_diff_NoDup|].
  assert (Hle : set_le qids lexeme_form_qid_order = false).
  { destruct (set_le qids lexeme_form_qid_order) eqn:E; [|reflexivity].
    exfalso. apply Habs. rewrite set_le_spec in E. now apply E. }
  destruct qids as [|a qids]; [congruence|].
  unfold return_correct_form_label. rewrite Hle. simpl negb. cbv iota.
  unfold not_included_message.
  destruct (sorted (set_diff (a :: qids) lexeme_form_qid_order)) as [|x [|y rest]] eqn:E.
  - exfalso. apply (Hspec q0). now split.
  - reflexivity.
  - reflexivity.
Qed.

(** *** The header check *)

Lemma drop_prefix_app (a b s : string) :
  drop_prefix (a ++ b) s
  = match drop_prefix a s with
    | Some s' => drop_prefix b s'
    | None => None
    end.
Proof.
  revert s. induction a as [|x a IH]; intros s; simpl; [reflexivity|].
  destruct s as [|y s]; [reflexivity|].
  destruct (Ascii.eqb x y); [apply IH | reflexivity].
Qed.

Lemma rmatch_two_literals (a b line : string) :
  match rmatch (Bol +++ Lit a +++ Lit b) line with
  | Some _ => true
  | None => false
  end = startswith (a ++ b) line.
Proof.
  unfold rmatch, match_at, startswith. cbn [mat Nat.eqb].
  rewrite drop_prefix_app.
  destruct (drop_prefix a line) as [s'|]; [|reflexivity].
  now destruct (drop_prefix b s').
Qed.

(** The first and the third line match when they start with the fixed
    text and its newline; being lines, they then are that text. *)
Lemma docstring_literal_lines (line : string) :
  docstring_line_ok 0 line
  = startswith ("# tool: scribe-data" ++ String LF EmptyString) line
  /\ docstring_line_ok 2 line
     = startswith ("# Enter this query at https://query.wikidata.org/."
                   ++ String LF EmptyString) line.
Proof.
  split; apply rmatch_two_literals.
Qed.

(** C2: [check_docstring] checks the first three lines against the three
    patterns, in order.  When the three lines match it returns [True].
    When one of the first three lines deviates, it returns one error only,
    that of the first deviating line: its number counted from 1 and its
    text stripped of surrounding whitespace. *)
Theorem check_docstring_prefix_check (query_text : string) :
  (forall l1 l2 l3 rest,
     splitlines query_text = l1 :: l2 :: l3 :: rest ->
     docstring_line_ok 0 l1 = true -> docstring_line_ok 1 l2 = true ->
     docstring_line_ok 2 l3 = true ->
     check_docstring query_text = Ok DocTrue)
  /\ (forall i line,
        i < 3 -> nth_error (splitlines query_text) i = Some line ->
        docstring_line_ok i line = false ->
        exists j first,
          j <= i
          /\ nth_error (splitlines query_text) j = Some first
          /\ docstring_line_ok j first = false
          /\ (forall k l, k < j -> nth_error (splitlines query_text) k = Some l ->
                docstring_line_ok k l = true)
          /\ check_docstring query_text
             = Ok (DocFalse (error_in_line j ++ " " ++ strip first)%string)).
Proof.
  unfold check_docstring. generalize (splitlines query_text) as query_lines.
  intros query_lines. split.
  - intros l1 l2 l3 rest -> H1 H2 H3.
    unfold docstring_line_ok in H1, H2, H3. simpl in H1, H2, H3.
    simpl. 
    destruct (rmatch tool_line_pattern l1); [|discriminate].
    destruct (rmatch summary_line_pattern l2); [|discriminate].
    destruct (rmatch enter_line_pattern l3); [|discriminate].
    reflexivity.
  - intros i line Hi Hnth Hbad.
    destruct query_lines as [|l1 lines]; [destruct i; discriminate|].
    destruct (docstring_line_ok 0 l1) eqn:E1.
    + destruct i as [|i]; [simpl in Hnth; congruence|].
      destruct lines as [|l2 lines]; [destruct i; discriminate|].
      destruct (docstring_line_ok 1 l2) eqn:E2.
      * destruct i as [|i]; [simpl in Hnth; congruence|].
        destruct lines as [|l3 lines]; [destruct i; discriminate|].
        destruct i as [|i]; [|lia].
        simpl in Hnth. injection Hnth as <-.
        exists 2, l3. split; [lia|]. split; [reflexivity|]. split; [exact Hbad|].
        split.
        { intros k l Hk Hl. destruct k as [|[|k]]; [| |lia];
            simpl in Hl; injection Hl as <-; assumption. }
        unfold docstring_line_ok in E1, E2, Hbad. simpl in E1, E2, Hbad. simpl.
        destruct (rmatch tool_line_pattern l1); [|discriminate].
        destruct (rmatch summary_line_pattern l2); [|discriminate].
        destruct (rmatch enter_line_pattern l3); [discriminate|].
        reflexivity.
      * exists 1, l2. split; [lia|]. split; [reflexivity|]. split; [exact E2|].
        split.
        { intros k l Hk Hl. destruct k as [|k]; [|lia].
          simpl in Hl; injection Hl as <-; assumption. }
        unfold docstring_line_ok in E1, E2. simpl in E1, E2. simpl.
        destruct (rmatch tool_line_pattern l1); [|discriminate].
        destruct (rmatch summary_line_pattern l2); [discriminate|].
        reflexivity.
    + exists 0, l1. split; [lia|]. split; [reflexivity|]. split; [exact E1|].
      split; [intros k l Hk; lia|].
      unfold docstring_line_ok in E1. simpl in E1. simpl.
      destruct (rmatch tool_line_pattern l1); [discriminate|].
      reflexivity.
Qed.

(** *** Searching for two adjacent characters *)

Lemma match_at_two_classes (p q : ascii -> bool) (pos : nat) (s : string) :
  match_at (Cls p +++ Cls q) pos s <> None
  <-> exists c d t, s = String c (String d t) /\ p c = true /\ q d = true.
Proof.
  unfold match_at. simpl. split.
  - intros H. destruct s as [|c [|d t]].
    + congruence.
    + destruct (p c); congruence.
    + destruct (p c) eqn:Ep; [|congruence].
      destruct (q d) eqn:Eq; [|congruence].
      now exists c, d, t.
  - intros [c [d [t [-> [Hp Hq]]]]]. rewrite Hp, Hq. congruence.
Qed.

Lemma match_at_class_char (p : ascii -> bool) (x : ascii) (pos : nat) (s : string) :
  match_at (Cls p +++ Lit (String x EmptyString)) pos s <> None
  <-> exists c d t, s = String c (String d t) /\ p c = true /\ Ascii.eqb d x = true.
Proof.
  unfold match_at. simpl. split.
  - intros H. destruct s as [|c [|d t]].
    + congruence.
    + destruct (p c); congruence.
    + destruct (p c) eqn:Ep; [|congruence].
      destruct (Ascii.eqb x d) eqn:Ex; [|congruence].
      exists c, d, t. now rewrite Ascii.eqb_sym.
  - intros [c [d [t [-> [Hp Hx]]]]]. rewrite Hp.
    rewrite Ascii.eqb_sym in Hx. rewrite Hx. congruence.
Qed.

Lemma search_from_adjacent (r : regex) (p q : ascii -> bool) :
  (forall pos s, match_at r pos s <> None
     <-> exists c d t, s = String c (String d t) /\ p c = true /\ q d = true) ->
  forall s pos, search_from r pos s <> None <-> has_adjacent p q s.
Proof.
  intros Hr. induction s as [|a s IH]; intros pos; simpl.
  - destruct (match_at r pos EmptyString) eqn:E.
    + assert (H : match_at r pos EmptyString <> None) by congruence.
      apply Hr in H. destruct H as [c [d [t [H _]]]]. discriminate.
    + split; [congruence|].
      intros [l [c [d [t [H _]]]]]. destruct l; discriminate.
  - destruct (match_at r pos (String a s)) eqn:E.
    + split; [|congruence]. intros _.
      assert (H : match_at r pos (String a s) <> None) by congruence.
      apply Hr in H. destruct H as [c [d [t [H [Hp Hq]]]]].
      exists EmptyString, c, d, t. now rewrite H.
    + rewrite IH. split.
      * intros [l [c [d [t [H [Hp Hq]]]]]].
        exists (String a l), c, d, t. simpl. now rewrite H.
      * intros [l [c [d [t [H [Hp Hq]]]]]].
        destruct l as [|b l].
        { exfalso. simpl in H.
          assert (Hm : match_at r pos (String a s) <> None).
          { apply Hr. exists c, d, t. now rewrite H. }
          congruence. }
        simpl in H. injection H as _ H. now exists l, c, d, t.
Qed.

(** C9: [check_query_formatting] returns [False] exactly for the texts in
    which a comma follows a whitespace character or a full stop or a
    semicolon follows a character that is not whitespace, and [True] for
    all others; so it accepts "?x ontolex:representation ?y ." and rejects
    "?x ontolex:representation ?y." and "?x , ?y". *)
Theorem check_query_formatting_spec :
  (forall form_text,
     check_query_formatting form_text = false
     <-> has_adjacent is_space (fun d => Ascii.eqb d ","%char) form_text
         \/ has_adjacent (fun c => negb (is_space c))
              (fun d => Ascii.eqb d "."%char || Ascii.eqb d ";"%char) form_text)
  /\ check_query_formatting "?x ontolex:representation ?y ." = true
  /\ check_query_formatting "?x ontolex:representation ?y." = false
  /\ check_query_formatting "?x , ?y" = false.
Proof.
  split; [|repeat split; reflexivity].
  intros form_text. unfold check_query_formatting, search.
  pose proof (search_from_adjacent space_comma_pattern is_space
                (fun d => Ascii.eqb d ","%char)
                (match_at_class_char is_space ","%char) form_text 0) as Hcomma.
  pose proof (search_from_adjacent nonspace_stop_pattern
                (fun c => negb (is_space c))
                (fun d => Ascii.eqb d "."%char || Ascii.eqb d ";"%char)
                (match_at_two_classes _ _) form_text 0) as Hstop.
  destruct (search_from space_comma_pattern 0 form_text).
  - split; [|reflexivity]. intros _. left. apply Hcomma. congruence.
  - destruct (search_from nonspace_stop_pattern 0 form_text).
    + split; [|reflexivity]. intros _. right. apply Hstop. congruence.
    + split; [discriminate|].
      intros [H|H]; [apply Hcomma in H | apply Hstop in H]; congruence.
Qed.

(** *** Counting and duplicates *)

Lemma count_cons (x y : string) (l : list string) :
  count x (y :: l) = (if String.eqb x y then 1 else 0) + count x l.
Proof. unfold count. simpl. now destruct (String.eqb x y). Qed.

Lemma count_not_In (x : string) (l : list string) : ~ In x l -> count x l = 0.
Proof.
  induction l as [|y l IH]; intros Hn; [reflexivity|].
  rewrite count_cons. destruct (String.eqb_spec x y) as [->|Hne].
  - exfalso. apply Hn. now left.
  - rewrite IH; [reflexivity|]. intros H. apply Hn. now right.
Qed.

Lemma count_In (x : string) (l : list string) : 1 <= count x l -> In x l.
Proof.
  intros H. destruct (in_dec string_dec x l) as [Hin|Hn]; [assumption|].
  rewrite count_not_In in H by assumption. lia.
Qed.

Lemma NoDup_count (x : string) (l : list string) : NoDup l -> count x l <= 1.
Proof.
  induction 1 as [|y l Hn Hnd IH]; [unfold count; simpl; lia|].
  rewrite count_cons. destruct (String.eqb_spec x y) as [->|Hne]; [|lia].
  rewrite count_not_In by assumption. lia.
Qed.

Lemma count_filter_not_lexeme (v : string) (l : list string) :
  not_lexeme v = true -> count v (filter not_lexeme l) = count v l.
Proof.
  intros Hv. induction l as [|y l IH]; [reflexivity|].
  simpl. destruct (not_lexeme y) eqn:Ey.
  - rewrite !count_cons. now rewrite IH.
  - rewrite count_cons, IH.
    destruct (String.eqb_spec v y) as [->|Hne]; [congruence | reflexivity].
Qed.

Lemma distinct_length_NoDup (l : list string) :
  List.length (distinct l) = List.length l -> NoDup l.
Proof.
  unfold distinct. induction l as [|x l IH]; simpl; [constructor|].
  assert (Hle : forall l', List.length (nodup string_dec l') <= List.length l').
  { induction l' as [|y l' IH']; simpl; [lia|].
    destruct (in_dec string_dec y l'); simpl; lia. }
  destruct (in_dec string_dec x l) as [Hin|Hn]; simpl; intros H.
  - specialize (Hle l). lia.
  - constructor; [assumption|]. apply IH. lia.
Qed.

Lemma uniqueness_forms_check_spec (select_vars : list string) :
  negb (List.length select_vars =? List.length (distinct select_vars))%nat = false
  <-> NoDup select_vars.
Proof.
  rewrite negb_false_iff, Nat.eqb_eq. split.
  - intros H. now apply distinct_length_NoDup.
  - intros H. unfold distinct. now rewrite nodup_fixed_point.
Qed.

(** *** The checks of [validate_forms] *)

(** C3, amended: when the selection list, its first two variables dropped,
    holds "singular" at least twice, [validate_forms] returns the
    duplicate error and nothing else, whatever the pattern list is: the
    text "Duplicate forms found in SELECT: " followed by the duplicated
    variables other than "lexeme" and "lexemeID", each once, in the
    iteration order of a set and joined by ", ".  "singular" is one of
    them; when it is the only one the text is "Duplicate forms found in
    SELECT: singular".  The order error is not reported. *)
Theorem validate_forms_duplicate_priority (query_text : string) (select_vars : list string) :
  select_vars_of query_text = Some select_vars ->
  2 <= count "singular" select_vars ->
  exists duplicates,
    NoDup duplicates
    /\ (forall v, In v duplicates
                  <-> not_lexeme v = true /\ 2 <= count v select_vars)
    /\ validate_forms query_text
       = ("Duplicate forms found in SELECT: " ++ join ", " duplicates)%string
    /\ ((forall v, In v duplicates -> v = "singular") ->
        validate_forms query_text = "Duplicate forms found in SELECT: singular")
    /\ validate_forms query_text <> order_message.
Proof.
  intros Hsel Hcount.
  set (filtered := filter not_lexeme select_vars).
  set (duplicates :=
         set_iteration (filter (fun var => (1 <? count var filtered)%nat) filtered)).
  assert (Hdup : forall v, In v duplicates
                           <-> not_lexeme v = true /\ 2 <= count v select_vars).
  { intros v. unfold duplicates. rewrite set_iteration_In, filter_In.
    unfold filtered at 1. rewrite filter_In, Nat.ltb_lt. split.
    - intros [[_ Hv] Hc]. unfold filtered in Hc.
      rewrite count_filter_not_lexeme in Hc by assumption. split; [assumption | lia].
    - intros [Hv Hc]. unfold filtered.
      rewrite count_filter_not_lexeme by assumption.
      repeat split; [apply count_In; lia | assumption | lia]. }
  assert (Hres : validate_forms query_text
                 = ("Duplicate forms found in SELECT: " ++ join ", " duplicates)%string).
  { unfold validate_forms. rewrite Hsel. cbv zeta.
    destruct (negb (List.length select_vars =? List.length (distinct select_vars))%nat) eqn:E.
    - reflexivity.
    - apply uniqueness_forms_check_spec in E.
      pose proof (NoDup_count "singular" select_vars E). lia. }
  exists duplicates. split; [apply set_iteration_NoDup|]. split; [exact Hdup|].
  split; [exact Hres|]. split.
  - intros Hall. rewrite Hres.
    assert (Hs : In "singular" duplicates) by (apply Hdup; split; [reflexivity | assumption]).
    pose proof (set_iteration_NoDup
                  (filter (fun var => (1 <? count var filtered)%nat) filtered)) as Hnd.
    fold duplicates in Hnd.
    destruct duplicates as [|a [|b rest]].
    + destruct Hs.
    + rewrite (Hall a) by now left. reflexivity.
    + exfalso. assert (a = "singular") by (apply Hall; now left).
      assert (b = "singular") by (apply Hall; right; now left).
      subst. apply NoDup_cons_iff in Hnd. apply (proj1 Hnd). now left.
  - rewrite Hres. discriminate.
Qed.

(** C4, amended: the completeness check compares the selection list, its
    first two variables dropped, with the pattern list after the
    labeling-service variables are inserted, and does so before "lexeme"
    and "lexemeID" are removed from either.  For a text with a SELECT ...
    WHERE span and no duplicate among these selection variables, the
    result is the undefined-forms error exactly when some selection
    variable is not in the pattern list: "Undefined forms found in
    SELECT: " followed by exactly the missing variables, in ascending
    order and joined by ", ". *)
Theorem validate_forms_undefined_forms (query_text : string) (select_vars : list string) :
  select_vars_of query_text = Some select_vars ->
  NoDup select_vars ->
  exists missing,
    (forall v, In v missing
               <-> In v select_vars /\ ~ In v (where_vars_of select_vars query_text))
    /\ strictly_ascending missing
    /\ (missing <> [] ->
        validate_forms query_text
        = ("Undefined forms found in SELECT: " ++ join ", " missing)%string)
    /\ (missing = [] ->
        startswith "Undefined forms found in SELECT" (validate_forms query_text) = false).
Proof.
  intros Hsel Hnd.
  exists (sorted (set_diff select_vars (where_vars_of select_vars query_text))).
  split; [intros v; now rewrite sorted_In, set_diff_In|].
  split; [apply sorted_strictly_ascending, set_diff_NoDup|].
  apply uniqueness_forms_check_spec in Hnd.
  unfold validate_forms. rewrite Hsel. cbv zeta. rewrite Hnd.
  destruct (set_diff select_vars (where_vars_of select_vars query_text)) as [|s l] eqn:E.
  - split; [intros H; now contradiction H|]. intros _.
    destruct (set_diff (where_vars_of select_vars query_text) select_vars).
    + destruct (negb (list_eqb (filter not_lexeme select_vars)
                         (filter not_lexeme (where_vars_of select_vars query_text))));
        reflexivity.
    + reflexivity.
  - split; [intros _; reflexivity|].
    intros H. apply (f_equal (@List.length string)) in H.
    rewrite sorted_length in H. discriminate.
Qed.

Lemma set_diff_nil (a b : list string) :
  (forall x, In x a -> In x b) -> set_diff a b = [].
Proof.
  intros H. destruct (set_diff a b) as [|x l] eqn:E; [reflexivity|].
  assert (Hx : In x (set_diff a b)) by (rewrite E; now left).
  apply set_diff_In in Hx. destruct Hx as [Ha Hb]. exfalso. now apply Hb, H.
Qed.









(** C6, at failing inputs: a text with fewer than three lines makes
    [check_docstring] raise [IndexError]; a form block whose
    representation statement binds no variable makes [check_form_label]
    raise [UnboundLocalError]; a feature without the "wd:" prefix makes
    [extract_form_qids] raise [IndexError]. *)
Theorem checks_raise_on_malformed_text :
  check_docstring EmptyString = Raise IndexError
  /\ check_docstring ("# tool: scribe-data" ++ String LF EmptyString) = Raise IndexError
  /\ check_form_label unbound_label_form = Raise UnboundLocalError
  /\ extract_form_qids no_prefix_qid_form = Raise IndexError.
Proof. repeat split; vm_compute; reflexivity. Qed.

(** *** The collection of form checks *)

Lemma key_eqb_eq (a b : option string) : key_eqb a b = true <-> a = b.
Proof.
  destruct a as [x|], b as [y|]; simpl; try (split; congruence).
  rewrite String.eqb_eq. split; congruence.
Qed.

Lemma key_eqb_neq (a b : option string) : key_eqb a b = false <-> a <> b.
Proof.
  rewrite <- key_eqb_eq. destruct (key_eqb a b); split; congruence.
Qed.

Lemma dict_get_set_same (k : option string) (v : form_check) (d : check_dict) :
  dict_get k (dict_set k v d) = Some v.
Proof.
  induction d as [|[k' v'] d IH]; simpl.
  - now rewrite (proj2 (key_eqb_eq k k) eq_refl).
  - destruct (key_eqb k k') eqn:E; simpl; rewrite E; [reflexivity | exact IH].
Qed.

Lemma dict_get_set_other (k k' : option string) (v : form_check) (d : check_dict) :
  k <> k' -> dict_get k' (dict_set k v d) = dict_get k' d.
Proof.
  intros Hne. induction d as [|[k0 v0] d IH]; simpl.
  - destruct (key_eqb k' k) eqn:E; [|reflexivity].
    apply key_eqb_eq in E. congruence.
  - destruct (key_eqb k k0) eqn:E; simpl.
    + apply key_eqb_eq in E. subst k0.
      destruct (key_eqb k' k) eqn:E'; [|reflexivity].
      apply key_eqb_eq in E'. congruence.
    + now rewrite IH.
Qed.

Lemma dict_set_keys (k : option string) (v : form_check) (d : check_dict) :
  forall k', In k' (map fst (dict_set k v d)) <-> k' = k \/ In k' (map fst d).
Proof.
  intros k'. induction d as [|[k0 v0] d IH]; simpl.
  - intuition congruence.
  - destruct (key_eqb k k0) eqn:E; simpl.
    + apply key_eqb_eq in E. subst k0. intuition congruence.
    + rewrite IH. intuition congruence.
Qed.

Lemma dict_set_NoDup (k : option string) (v : form_check) (d : check_dict) :
  NoDup (map fst d) -> NoDup (map fst (dict_set k v d)).
Proof.
  induction d as [|[k0 v0] d IH]; simpl; intros Hnd.
  - constructor; [intros [] | constructor].
  - apply NoDup_cons_iff in Hnd. destruct Hnd as [Hn Hnd].
    destruct (key_eqb k k0) eqn:E; simpl.
    + constructor; assumption.
    + constructor; [|now apply IH].
      rewrite dict_set_keys. intros [H|H]; [|contradiction].
      apply key_eqb_neq in E. congruence.
Qed.

Lemma dict_set_In (k : option string) (v : form_check) (d : check_dict) :
  forall kv, In kv (dict_set k v d) -> kv = (k, v) \/ In kv d.
Proof.
  intros kv. induction d as [|[k0 v0] d IH]; simpl.
  - intuition congruence.
  - destruct (key_eqb k k0) eqn:E; simpl.
    + apply key_eqb_eq in E. subst k0. intuition congruence.
    + intuition congruence.
Qed.

Lemma dict_get_In (k : option string) (v : form_check) (d : check_dict) :
  NoDup (map fst d) -> dict_get k d = Some v ->
  forall v', In (k, v') d -> v' = v.
Proof.
  induction d as [|[k0 v0] d IH]; simpl; intros Hnd Hget v' Hin; [contradiction|].
  apply NoDup_cons_iff in Hnd. destruct Hnd as [Hn Hnd].
  destruct (key_eqb k k0) eqn:E.
  - apply key_eqb_eq in E. subst k0.
    destruct Hin as [Heq|Hin]; [congruence|].
    exfalso. apply Hn. now apply (in_map fst) in Hin.
  - apply key_eqb_neq in E.
    destruct Hin as [Heq|Hin]; [congruence|]. now apply IH.
Qed.

Lemma foldM_app {A B : Type} (f : B -> A -> pyresult B) (l1 l2 : list A) (acc : B) :
  foldM f (l1 ++ l2) acc = (acc' <- foldM f l1 acc ;; foldM f l2 acc').
Proof.
  revert acc. induction l1 as [|a l1 IH]; intros acc; simpl; [reflexivity|].
  destruct (f acc a); simpl; [apply IH | reflexivity].
Qed.

Lemma check_form_key (form_text : string) (kv : option string * form_check) :
  check_form form_text = Ok kv -> fst kv = extract_form_rep_label form_text.
Proof.
  unfold check_form.
  destruct (check_form_label form_text); simpl; [|discriminate].
  destruct (extract_form_qids form_text) as [found|]; simpl; [|discriminate].
  destruct (return_correct_form_label found); simpl; [|discriminate].
  intros H. injection H as <-. reflexivity.
Qed.

Lemma add_form_check_cases (d d' : check_dict) (form_text : string) :
  add_form_check d form_text = Ok d' ->
  (is_form_block form_text = false /\ d' = d)
  \/ (is_form_block form_text = true
      /\ exists v, check_form form_text = Ok (extract_form_rep_label form_text, v)
                   /\ d' = dict_set (extract_form_rep_label form_text) v d).
Proof.
  unfold add_form_check. destruct (is_form_block form_text).
  - destruct (check_form form_text) as [[k v]|] eqn:E; simpl; [|discriminate].
    intros H. injection H as <-. right. split; [reflexivity|].
    apply check_form_key in E as Hk. simpl in Hk. subst k. now exists v.
  - intros H. injection H as <-. now left.
Qed.

Lemma query_form_check_dict_entries (forms : list string) (d0 d : check_dict) :
  foldM add_form_check forms d0 = Ok d ->
  (NoDup (map fst d0) -> NoDup (map fst d))
  /\ (forall kv, In kv d ->
        In kv d0
        \/ exists form_text, In form_text forms /\ is_form_block form_text = true
                             /\ check_form form_text = Ok kv).
Proof.
  revert d0. induction forms as [|form_text forms IH]; intros d0; simpl.
  - intros H. injection H as <-. split; [trivial | now left].
  - destruct (add_form_check d0 form_text) as [d1|] eqn:E; simpl; [|discriminate].
    intros H. destruct (IH d1 H) as [Hnd Hin].
    apply add_form_check_cases in E.
    destruct E as [[_ ->]|[Hblock [v [Hcheck ->]]]].
    + split; [assumption|]. intros kv Hkv.
      destruct (Hin kv Hkv) as [H1|[f [Hf H2]]]; [now left|].
      right. exists f. split; [now right | assumption].
    + split; [intros H0; now apply Hnd, dict_set_NoDup|].
      intros kv Hkv. destruct (Hin kv Hkv) as [H1|[f [Hf H2]]].
      * apply dict_set_In in H1. destruct H1 as [->|H1]; [|now left].
        right. exists form_text. split; [now left | now split].
      * right. exists f. split; [now right | assumption].
Qed.

Lemma query_form_check_dict_keeps (forms : list string) (d0 d : check_dict) (k : option string) :
  foldM add_form_check forms d0 = Ok d ->
  (forall later, In later forms -> is_form_block later = true ->
     extract_form_rep_label later <> k) ->
  dict_get k d = dict_get k d0.
Proof.
  revert d0. induction forms as [|form_text forms IH]; intros d0; simpl.
  - intros H _. now injection H as <-.
  - destruct (add_form_check d0 form_text) as [d1|] eqn:E; simpl; [|discriminate].
    intros H Hlater. rewrite (IH d1 H) by (intros; apply Hlater; [now right | assumption]).
    apply add_form_check_cases in E.
    destruct E as [[_ ->]|[Hblock [v [_ ->]]]]; [reflexivity|].
    apply dict_get_set_other. apply Hlater; [now left | assumption].
Qed.

Lemma dict_In_get (k : option string) (v : form_check) (d : check_dict) :
  NoDup (map fst d) -> In (k, v) d -> dict_get k d = Some v.
Proof.
  induction d as [|[k0 v0] d IH]; simpl; intros Hnd Hin; [contradiction|].
  apply NoDup_cons_iff in Hnd. destruct Hnd as [Hn Hnd].
  destruct Hin as [Heq|Hin].
  - injection Heq as -> ->. now rewrite (proj2 (key_eqb_eq k k) eq_refl).
  - destruct (key_eqb k k0) eqn:E; [|now apply IH].
    apply key_eqb_eq in E. subst k0.
    exfalso. apply Hn. now apply (in_map fst) in Hin.
Qed.

Lemma incorrect_query_label_key (kv : option string * form_check) (k : option string) (msg : string) :
  In (k, msg) (incorrect_query_label kv) -> k = fst kv.
Proof.
  destruct kv as [k0 v0]. unfold incorrect_query_label.
  destruct (negb (correct_formatting v0));
    [|destruct (negb (key_eqb k0 (Some (correct_form_rep_label v0))));
      [|destruct (negb (form_rep_match v0))]];
    simpl; intros H; try (destruct H as [H|[]]; now injection H as <- _).
  destruct H.
Qed.

Lemma incorrect_query_labels_NoDup (d : check_dict) :
  NoDup (map fst d) -> NoDup (map fst (flat_map incorrect_query_label d)).
Proof.
  induction d as [|[k v] d IH]; intros Hnd; [constructor|].
  simpl in Hnd. apply NoDup_cons_iff in Hnd. destruct Hnd as [Hn Hnd].
  change (flat_map incorrect_query_label ((k, v) :: d))
    with (incorrect_query_label (k, v) ++ flat_map incorrect_query_label d).
  rewrite map_app.
  assert (Hrest : ~ In k (map fst (flat_map incorrect_query_label d))).
  { intros H. apply in_map_iff in H. destruct H as [[k' msg] [Hk H]].
    simpl in Hk. subst k'. apply in_flat_map in H. destruct H as [kv [Hkv H]].
    apply incorrect_query_label_key in H. apply Hn. subst k.
    now apply in_map. }
  assert (Hhead : map fst (incorrect_query_label (k, v)) = []
                  \/ map fst (incorrect_query_label (k, v)) = [k]).
  { unfold incorrect_query_label.
    destruct (negb (correct_formatting v)); [now right|].
    destruct (negb (key_eqb k (Some (correct_form_rep_label v)))); [now right|].
    destruct (negb (form_rep_match v)); [now right | now left]. }
  destruct Hhead as [->| ->]; simpl; [now apply IH|].
  constructor; [exact Hrest | now apply IH].
Qed.

(** C10: [query_form_check_dict] is keyed by representation label.  Once
    the loop over the optional blocks of a file is done, the dictionary
    holds one entry per label, every entry is the check result of some
    form block of the file, and the entry of a label is the result of
    the last form block with that label: the results of earlier blocks
    with the same label are gone.  The report names a label once at
    most, with a message drawn from that entry. *)
Theorem query_form_check_dict_last_block_wins (forms : list string) (query_form_check_dict : check_dict) :
  query_form_check_dict_of forms = Ok query_form_check_dict ->
  NoDup (map fst query_form_check_dict)
  /\ (forall k v, In (k, v) query_form_check_dict ->
        exists form_text, In form_text forms /\ is_form_block form_text = true
                          /\ check_form form_text = Ok (k, v))
  /\ (forall before form_text after,
        forms = before ++ form_text :: after ->
        is_form_block form_text = true ->
        (forall later, In later after -> is_form_block later = true ->
           extract_form_rep_label later <> extract_form_rep_label form_text) ->
        exists v,
          check_form form_text = Ok (extract_form_rep_label form_text, v)
          /\ dict_get (extract_form_rep_label form_text) query_form_check_dict = Some v
          /\ (forall v', In (extract_form_rep_label form_text, v') query_form_check_dict ->
                v' = v))
  /\ NoDup (map fst (flat_map incorrect_query_label query_form_check_dict))
  /\ (forall k msg,
        In (k, msg) (flat_map incorrect_query_label query_form_check_dict) ->
        exists v, dict_get k query_form_check_dict = Some v
                  /\ In (k, msg) (incorrect_query_label (k, v))).
Proof.
  unfold query_form_check_dict_of. intros Hd.
  destruct (query_form_check_dict_entries forms [] query_form_check_dict Hd) as [Hnd Hin].
  assert (Hnd' : NoDup (map fst query_form_check_dict)) by (apply Hnd; constructor).
  split; [exact Hnd'|]. split; [|split; [|split]].
  - intros k v Hkv. destruct (Hin (k, v) Hkv) as [[]|H]. exact H.
  - intros before form_text after -> Hblock Hlater.
    rewrite foldM_app in Hd.
    destruct (foldM add_form_check before []) as [d1|]; simpl in Hd; [|discriminate].
    destruct (add_form_check d1 form_text) as [d2|] eqn:E; simpl in Hd; [|discriminate].
    apply add_form_check_cases in E.
    destruct E as [[Hno _]|[_ [v [Hcheck ->]]]]; [congruence|].
    exists v. split; [exact Hcheck|].
    assert (Hget : dict_get (extract_form_rep_label form_text) query_form_check_dict = Some v).
    { rewrite (query_form_check_dict_keeps after _ _ _ Hd Hlater).
      apply dict_get_set_same. }
    split; [exact Hget|]. now apply dict_get_In.
  - now apply incorrect_query_labels_NoDup.
  - intros k msg H. apply in_flat_map in H. destruct H as [[k' v] [Hkv H]].
    apply incorrect_query_label_key in H as Hk. simpl in Hk. subst k'.
    exists v. split; [now apply dict_In_get | exact H].
Qed.

(** *** More on the label of a set of codes *)

Lemma string_ltb_irrefl (a : string) : String.ltb a a = false.
Proof.
  unfold String.ltb. pose proof (String.compare_antisym a a) as H.
  destruct (String.compare a a); simpl in H; congruence.
Qed.

Lemma string_ltb_asym (a b : string) :
  String.ltb a b = true -> String.ltb b a = false.
Proof.
  unfold String.ltb. rewrite (String.compare_antisym a b).
  destruct (String.compare b a); simpl; congruence.
Qed.

Lemma strictly_ascending_unique (l1 l2 : list string) :
  strictly_ascending l1 -> strictly_ascending l2 ->
  (forall x, In x l1 <-> In x l2) -> l1 = l2.
Proof.
  unfold strictly_ascending. intros H1. revert l2.
  induction H1 as [|a l1 Hs1 IH Ha]; intros l2 H2 Hsame.
  - destruct l2 as [|b l2]; [reflexivity|].
    exfalso. apply (Hsame b). now left.
  - destruct H2 as [|b l2 Hs2 Hb].
    + exfalso. apply (Hsame a). now left.
    + rewrite Forall_forall in Ha, Hb.
      assert (Hab : a = b).
      { destruct (proj1 (Hsame a) (or_introl eq_refl)) as [Heq|Hin]; [congruence|].
        destruct (proj2 (Hsame b) (or_introl eq_refl)) as [Heq|Hin']; [congruence|].
        pose proof (Hb a Hin) as Hlt1. pose proof (Ha b Hin') as Hlt2.
        apply string_ltb_asym in Hlt1. congruence. }
      subst b. f_equal. apply IH; [exact Hs2|].
      intros x. split; intros Hx.
      * destruct (proj1 (Hsame x) (or_intror Hx)) as [Heq|Hin]; [|exact Hin].
        subst x. pose proof (Ha a Hx) as Hlt. rewrite string_ltb_irrefl in Hlt. discriminate.
      * destruct (proj2 (Hsame x) (or_intror Hx)) as [Heq|Hin]; [|exact Hin].
        subst x. pose proof (Hb a Hx) as Hlt. rewrite string_ltb_irrefl in Hlt. discriminate.
Qed.

Lemma sorted_set_diff_same_elements (a1 a2 b : list string) :
  (forall x, In x a1 <-> In x a2) ->
  sorted (set_diff a1 b) = sorted (set_diff a2 b).
Proof.
  intros Hsame. apply strictly_ascending_unique.
  - apply sorted_strictly_ascending, set_diff_NoDup.
  - apply sorted_strictly_ascending, set_diff_NoDup.
  - intros x. rewrite !sorted_In, !set_diff_In, Hsame. reflexivity.
Qed.

(** X1: [return_correct_form_label] depends on the set of the codes it is
    given and on nothing else: two lists with the same elements, in any
    order and with any repetition, known to the vocabulary or not, give
    the same result. *)
Theorem return_correct_form_label_same_elements (qids1 qids2 : list string) :
  (forall q, In q qids1 <-> In q qids2) ->
  return_correct_form_label (Some qids1) = return_correct_form_label (Some qids2).
Proof.
  intros Hsame.
  assert (Hle : set_le qids1 lexeme_form_qid_order = set_le qids2 lexeme_form_qid_order).
  { destruct (set_le qids2 lexeme_form_qid_order) eqn:E2.
    - rewrite set_le_spec in *. intros x Hx. apply E2. now apply Hsame.
    - destruct (set_le qids1 lexeme_form_qid_order) eqn:E1; [|reflexivity].
      rewrite <- E2. symmetry. rewrite set_le_spec in *.
      intros x Hx. apply E1. now apply Hsame. }
  assert (Hfilter : filter (fun q => mem q qids1) lexeme_form_qid_order
                    = filter (fun q => mem q qids2) lexeme_form_qid_order).
  { apply filter_ext. intros q. now apply mem_same_elements. }
  destruct qids1 as [|a qids1], qids2 as [|b qids2].
  - reflexivity.
  - exfalso. apply (Hsame b). now left.
  - exfalso. apply (Hsame a). now left.
  - unfold return_correct_form_label. rewrite Hle, Hfilter.
    now rewrite (sorted_set_diff_same_elements _ _ _ Hsame).
Qed.

Lemma add_label_KeyError (q : string) (subs : list (string * form_entry)) (acc : string) (e : exn) :
  foldM (add_label q) subs acc = Raise e -> e = KeyError.
Proof.
  revert acc. induction subs as [|sub subs IH]; intros acc; simpl; [discriminate|].
  unfold add_label at 1.
  destruct (qid (snd sub)) as [q'|]; simpl; [|congruence].
  destruct (String.eqb q q'); [|apply IH].
  destruct (label (snd sub)); simpl; [apply IH | congruence].
Qed.

Lemma add_label_missing_qid (q : string) (subs : list (string * form_entry)) (acc : string) :
  (exists sub, In sub subs /\ qid (snd sub) = None) ->
  foldM (add_label q) subs acc = Raise KeyError.
Proof.
  revert acc. induction subs as [|sub subs IH]; intros acc [bad [Hin Hbad]];
    [destruct Hin|].
  simpl. destruct (add_label q acc sub) as [acc'|e] eqn:E; simpl.
  - apply IH. destruct Hin as [<-|Hin]; [|now exists bad].
    unfold add_label in E. rewrite Hbad in E. discriminate.
  - unfold add_label in E.
    destruct (qid (snd sub)); [|congruence].
    destruct (String.eqb q s); [|discriminate].
    destruct (label (snd sub)); congruence.
Qed.

Lemma add_category_labels_KeyError (q : string) (categories : vocabulary) (acc : string) (e : exn) :
  foldM (add_category_labels q) categories acc = Raise e -> e = KeyError.
Proof.
  revert acc. induction categories as [|category categories IH]; intros acc; simpl;
    [discriminate|].
  destruct (add_category_labels q acc category) as [acc'|e'] eqn:E; simpl.
  - apply IH.
  - intros H. injection H as <-. now apply add_label_KeyError in E.
Qed.

Lemma add_category_labels_missing_qid (q : string) (categories : vocabulary) (acc : string) :
  (exists category sub,
     In category categories /\ In sub (snd category) /\ qid (snd sub) = None) ->
  foldM (add_category_labels q) categories acc = Raise KeyError.
Proof.
  revert acc.
  induction categories as [|category categories IH];
    intros acc [bad [sub [Hin [Hsub Hbad]]]]; [destruct Hin|].
  simpl. destruct (add_category_labels q acc category) as [acc'|e] eqn:E; simpl.
  - apply IH. destruct Hin as [<-|Hin]; [|now exists bad, sub].
    unfold add_category_labels in E.
    rewrite add_label_missing_qid in E by now exists sub. discriminate.
  - f_equal. now apply add_label_KeyError in E.
Qed.

Lemma add_qid_labels_KeyError (ordered : list string) (acc : string) (e : exn) :
  foldM add_qid_labels ordered acc = Raise e -> e = KeyError.
Proof.
  revert acc. induction ordered as [|q ordered IH]; intros acc; simpl; [discriminate|].
  destruct (add_qid_labels acc q) as [acc'|e'] eqn:E; simpl.
  - apply IH.
  - intros H. injection H as <-. now apply add_category_labels_KeyError in E.
Qed.

(** X2: the flattened code order skips the entries without a "qid" key,
    the lookup loop does not.  When the vocabulary holds such an entry,
    every non-empty list of known codes makes
    [return_correct_form_label] raise [KeyError]; and [KeyError] is the
    only exception the function raises, whatever the vocabulary. *)
Theorem return_correct_form_label_KeyError :
  (forall qids,
     (exists category sub,
        In category lexeme_form_metadata /\ In sub (snd category)
        /\ qid (snd sub) = None) ->
     qids <> [] ->
     (forall q, In q qids -> In q lexeme_form_qid_order) ->
     return_correct_form_label (Some qids) = Raise KeyError)
  /\ (forall qids e, return_correct_form_label qids = Raise e -> e = KeyError).
Proof.
  split.
  - intros qids Hbad Hne Hin.
    assert (Hle : set_le qids lexeme_form_qid_order = true) by now apply set_le_spec.
    destruct qids as [|a qids]; [congruence|].
    unfold return_correct_form_label. rewrite Hle. simpl negb. cbv iota.
    destruct (filter (fun q => mem q (a :: qids)) lexeme_form_qid_order) as [|q ordered] eqn:E.
    + exfalso. assert (Ha : In a (filter (fun q => mem q (a :: qids)) lexeme_form_qid_order)).
      { apply filter_In. split; [apply Hin; now left | apply mem_In; now left]. }
      rewrite E in Ha. destruct Ha.
    + simpl. unfold add_qid_labels at 1.
      now rewrite add_category_labels_missing_qid.
  - intros [[|a qids]|] e; unfold return_correct_form_label; try discriminate.
    destruct (negb (set_le (a :: qids) lexeme_form_qid_order)); [discriminate|].
    destruct (foldM add_qid_labels
                (filter (fun q => mem q (a :: qids)) lexeme_form_qid_order) EmptyString)
      as [l|e'] eqn:E; simpl; [discriminate|].
    intros H. injection H as <-. now apply add_qid_labels_KeyError in E.
Qed.

Lemma lower_char_not_I (c : ascii) : lower_char c <> "I"%char.
Proof.
  destruct c as [[] [] [] [] [] [] [] []]; vm_compute; discriminate.
Qed.

Lemma invalid_formatting_label_iff (qids : option (list string)) :
  return_correct_form_label qids = Ok "Invalid query formatting found"
  <-> qids = None \/ qids = Some [].
Proof.
  split.
  - destruct qids as [[|a qids]|]; [now right | | now left].
    intros H. exfalso. revert H. unfold return_correct_form_label.
    destruct (negb (set_le (a :: qids) lexeme_form_qid_order)).
    + unfold not_included_message.
      destruct (1 <? List.length (sorted (set_diff (a :: qids) lexeme_form_qid_order)))%nat;
        discriminate.
    + destruct (foldM add_qid_labels
                  (filter (fun q => mem q (a :: qids)) lexeme_form_qid_order) EmptyString)
        as [l|e]; simpl; [|discriminate].
      destruct l as [|c l]; simpl; [discriminate|].
      intros H. injection H as H _. now apply lower_char_not_I in H.
  - intros [->| ->]; reflexivity.
Qed.

(** X3: the text "Invalid query formatting found" stands for a failed
    extraction and for nothing else: [return_correct_form_label] returns
    it exactly when it is given no list or an empty list, never as the
    label of known codes nor as the error for unknown ones. *)
Theorem return_correct_form_label_invalid_iff (qids : option (list string)) :
  return_correct_form_label qids = Ok "Invalid query formatting found"
  <-> qids = None \/ qids = Some [].
Proof. apply invalid_formatting_label_iff. Qed.

Lemma flat_map_flat_map {A B C : Type} (f : B -> list C) (g : A -> list B) (l : list A) :
  flat_map f (flat_map g l) = flat_map (fun x => flat_map f (g x)) l.
Proof.
  induction l as [|a l IH]; simpl; [reflexivity|].
  now rewrite flat_map_app, IH.
Qed.

Lemma filter_single (q : string) (l : list string) :
  NoDup l -> In q l -> filter (fun x => mem x [q]) l = [q].
Proof.
  induction 1 as [|a l Hn Hnd IH]; intros Hin; [destruct Hin|].
  simpl. destruct (String.eqb_spec a q) as [->|Hne]; simpl.
  - f_equal. clear IH Hin. induction l as [|b l IHl]; [reflexivity|].
    simpl. destruct (String.eqb_spec b q) as [->|Hb]; simpl.
    + exfalso. apply Hn. now left.
    + apply IHl; [intros H; apply Hn; now right | now inversion Hnd].
  - destruct Hin as [->|Hin]; [congruence | now apply IH].
Qed.

Lemma single_fragment (entries : list (string * form_entry)) (sub : string * form_entry) (q l : string) :
  NoDup (flat_map (fun sub => match qid (snd sub) with Some q => [q] | None => [] end) entries) ->
  In sub entries -> qid (snd sub) = Some q -> label (snd sub) = Some l ->
  flat_map
    (fun sub =>
       match qid (snd sub), label (snd sub) with
       | Some q', Some l => if String.eqb q q' then [l] else []
       | _, _ => []
       end) entries = [l].
Proof.
  clear compile_interpolated.
  set (codes := fun sub : string * form_entry =>
                  match qid (snd sub) with Some q => [q] | None => [] end).
  set (frag := fun sub : string * form_entry =>
                 match qid (snd sub), label (snd sub) with
                 | Some q', Some l => if String.eqb q q' then [l] else []
                 | _, _ => []
                 end).
  assert (Hnone : forall es, ~ In q (flat_map codes es) -> flat_map frag es = []).
  { induction es as [|e es IH]; intros Hq; [reflexivity|].
    simpl in *. rewrite in_app_iff in Hq. rewrite IH by tauto.
    unfold frag, codes in *. destruct (qid (snd e)) as [q'|]; [|reflexivity].
    destruct (label (snd e)); [|reflexivity].
    destruct (String.eqb_spec q q') as [->|Hne]; [|reflexivity].
    exfalso. apply Hq. left. now left. }
  induction entries as [|e es IH]; intros Hnd Hin Hq Hl; [destruct Hin|].
  simpl in Hnd. apply NoDup_app_remove_l in Hnd as Hnd'.
  destruct Hin as [->|Hin].
  - simpl. rewrite Hnone.
    + unfold frag. rewrite Hq, Hl, String.eqb_refl. reflexivity.
    + intros Hin. unfold codes at 1 in Hnd. rewrite Hq in Hnd.
      simpl in Hnd. apply NoDup_cons_iff in Hnd. tauto.
  - simpl. rewrite IH by assumption.
    assert (Hes : In q (flat_map codes es)).
    { apply in_flat_map. exists sub. split; [assumption|].
      unfold codes. rewrite Hq. now left. }
    unfold frag at 1. destruct (qid (snd e)) as [q'|] eqn:Eq; [|reflexivity].
    destruct (label (snd e)); [|reflexivity].
    destruct (String.eqb_spec q q') as [->|Hne]; [|reflexivity].
    exfalso. unfold codes at 1 in Hnd. rewrite Eq in Hnd.
    simpl in Hnd. apply NoDup_cons_iff in Hnd. tauto.
Qed.

(** X4: with a vocabulary whose entries all hold a code and a label and
    whose codes are all different, one code resolves to the label of its
    own entry, first character lower-cased. *)
Theorem return_correct_form_label_single (category : string * list (string * form_entry))
  (sub : string * form_entry) (q l : string) :
  complete_vocabulary ->
  NoDup lexeme_form_qid_order ->
  In category lexeme_form_metadata -> In sub (snd category) ->
  qid (snd sub) = Some q -> label (snd sub) = Some l ->
  return_correct_form_label (Some [q]) = Ok (lower_first l).
Proof.
  intros Hc Hnd Hcat Hsub Hq Hl.
  assert (Hentry : In sub (flat_map snd lexeme_form_metadata))
    by (apply in_flat_map; now exists category).
  assert (Horder : lexeme_form_qid_order
                   = flat_map (fun sub => match qid (snd sub) with Some q => [q] | None => [] end)
                       (flat_map snd lexeme_form_metadata))
    by (unfold lexeme_form_qid_order; now rewrite flat_map_flat_map).
  assert (Hin : In q lexeme_form_qid_order).
  { rewrite Horder. apply in_flat_map. exists sub. split; [assumption|].
    rewrite Hq. now left. }
  assert (Hle : set_le [q] lexeme_form_qid_order = true).
  { apply set_le_spec. intros x [<-|[]]. exact Hin. }
  unfold return_correct_form_label. rewrite Hle. simpl negb. cbv iota.
  rewrite filter_single by assumption.
  rewrite add_qid_labels_complete by exact Hc.
  simpl flat_map. rewrite app_nil_r.
  unfold fragments_of. rewrite <- flat_map_flat_map.
  rewrite (single_fragment _ sub q l); [reflexivity | | assumption..].
  now rewrite <- Horder.
Qed.

(** *** More on [validate_forms] *)

Lemma set_diff_nil_inv (a b : list string) :
  set_diff a b = [] -> forall x, In x a -> In x b.
Proof.
  intros H x Hx. destruct (in_dec string_dec x b) as [Hin|Hn]; [assumption|].
  assert (Hd : In x (set_diff a b)) by (apply set_diff_In; now split).
  rewrite H in Hd. destruct Hd.
Qed.

Lemma list_eqb_eq (a b : list string) : list_eqb a b = true <-> a = b.
Proof.
  unfold list_eqb. destruct (list_eq_dec string_dec a b); split; congruence.
Qed.

(** X5: [validate_forms] returns the empty text, its verdict that all is
    well, exactly for the texts with a SELECT ... WHERE span whose
    selection variables (the first two dropped) are all different, are
    the variables of the pattern list and, "lexeme" and "lexemeID" left
    out, come in the order of the pattern list. *)
Theorem validate_forms_empty_iff (query_text : string) :
  validate_forms query_text = EmptyString
  <-> exists select_vars,
        select_vars_of query_text = Some select_vars
        /\ NoDup select_vars
        /\ (forall v, In v select_vars <-> In v (where_vars_of select_vars query_text))
        /\ filter not_lexeme select_vars
           = filter not_lexeme (where_vars_of select_vars query_text).
Proof.
  unfold validate_forms. split.
  - destruct (select_vars_of query_text) as [select_vars|]; [|discriminate].
    cbv zeta.
    destruct (negb (List.length select_vars =? List.length (distinct select_vars))%nat) eqn:Eu;
      [discriminate|].
    apply uniqueness_forms_check_spec in Eu.
    destruct (set_diff select_vars (where_vars_of select_vars query_text)) eqn:E1;
      [|discriminate].
    destruct (set_diff (where_vars_of select_vars query_text) select_vars) eqn:E2;
      [|discriminate].
    destruct (list_eqb (filter not_lexeme select_vars)
                (filter not_lexeme (where_vars_of select_vars query_text))) eqn:E3;
      [|discriminate].
    intros _. exists select_vars. split; [reflexivity|]. split; [assumption|].
    split; [|now apply list_eqb_eq].
    intros v. split; [now apply set_diff_nil_inv | now apply set_diff_nil_inv].
  - intros [select_vars [-> [Hnd [Hsame Heq]]]]. cbv zeta.
    apply uniqueness_forms_check_spec in Hnd. rewrite Hnd.
    rewrite (set_diff_nil select_vars) by (intros x; apply Hsame).
    rewrite (set_diff_nil _ select_vars) by (intros x; apply Hsame).
    apply list_eqb_eq in Heq. now rewrite Heq.
Qed.

(** X6: when the selection variables (the first two dropped) are all
    different and all occur in the pattern list, a pattern variable that
    is not selected is reported: the result is "Defined but unreturned
    forms found: " followed by exactly the pattern variables that are not
    selected, in ascending order and joined by ", ".  When there is
    none, the result is the empty text or the order error. *)
Theorem validate_forms_unreturned_forms (query_text : string) (select_vars : list string) :
  select_vars_of query_text = Some select_vars ->
  NoDup select_vars ->
  (forall v, In v select_vars -> In v (where_vars_of select_vars query_text)) ->
  exists unreturned,
    (forall v, In v unreturned
               <-> In v (where_vars_of select_vars query_text) /\ ~ In v select_vars)
    /\ strictly_ascending unreturned
    /\ (unreturned <> [] ->
        validate_forms query_text
        = ("Defined but unreturned forms found: " ++ join ", " unreturned)%string)
    /\ (unreturned = [] ->
        validate_forms query_text = EmptyString
        \/ validate_forms query_text = order_message).
Proof.
  intros Hsel Hnd Hdef.
  exists (sorted (set_diff (where_vars_of select_vars query_text) select_vars)).
  split; [intros v; now rewrite sorted_In, set_diff_In|].
  split; [apply sorted_strictly_ascending, set_diff_NoDup|].
  apply uniqueness_forms_check_spec in Hnd.
  unfold validate_forms. rewrite Hsel. cbv zeta. rewrite Hnd.
  rewrite (set_diff_nil select_vars) by exact Hdef.
  destruct (set_diff (where_vars_of select_vars query_text) select_vars) as [|s l] eqn:E.
  - split; [intros H; now contradiction H|]. intros _.
    destruct (list_eqb (filter not_lexeme select_vars)
                (filter not_lexeme (where_vars_of select_vars query_text)));
      [now left | now right].
  - split; [intros _; reflexivity|].
    intros H. apply (f_equal (@List.length string)) in H.
    rewrite sorted_length in H. discriminate.
Qed.

Lemma insert_In (i : nat) (x y : string) (l : list string) :
  In y (insert i x l) <-> y = x \/ In y l.
Proof.
  clear compile_interpolated.
  unfold insert. rewrite in_app_iff. simpl.
  rewrite <- (firstn_skipn i l) at 3. rewrite in_app_iff.
  intuition congruence.
Qed.

Lemma insert_length (i : nat) (x : string) (l : list string) :
  List.length (insert i x l) = S (List.length l).
Proof.
  unfold insert. rewrite length_app. simpl.
  rewrite <- (firstn_skipn i l) at 3. rewrite length_app. lia.
Qed.

Lemma index_In (x : string) (l : list string) :
  In x l -> exists i, index x l = Some i.
Proof.
  induction l as [|y l IH]; intros Hin; [destruct Hin|].
  simpl. destruct (String.eqb_spec x y) as [->|Hne]; [now exists 0|].
  destruct Hin as [->|Hin]; [congruence|].
  destruct (IH Hin) as [i ->]. now exists (S i).
Qed.

Lemma insert_labeling_var_In (select_vars where_vars : list string) (var y : string) :
  In y (insert_labeling_var select_vars where_vars var)
  <-> In y where_vars \/ (y = var /\ In var select_vars).
Proof.
  clear compile_interpolated.
  unfold insert_labeling_var. destruct (mem var select_vars) eqn:E.
  - apply mem_In in E. destruct (index_In _ _ E) as [i ->].
    rewrite insert_In. intuition congruence.
  - apply mem_not_In in E. intuition congruence.
Qed.

(** X7: the variables of the pattern list are those bound in the pattern
    clause and the labeling-service variables "case", "gender" and
    "auxiliaryVerb" that are selected, each of these once more.  So a
    selected labeling-service variable is never missing from the pattern
    list, and the undefined-forms check cannot name it. *)
Theorem where_vars_of_elements (select_vars : list string) (query_text : string) :
  (forall v, In v (where_vars_of select_vars query_text)
             <-> In v (natural_where_vars query_text)
                 \/ (In v labeling_vars /\ In v select_vars))
  /\ List.length (where_vars_of select_vars query_text)
     = List.length (natural_where_vars query_text)
       + List.length (filter (fun var => mem var select_vars) labeling_vars)
  /\ (forall v, In v labeling_vars ->
        ~ In v (set_diff select_vars (where_vars_of select_vars query_text))).
Proof.
  clear compile_interpolated.
  assert (Hel : forall v, In v (where_vars_of select_vars query_text)
                          <-> In v (natural_where_vars query_text)
                              \/ (In v labeling_vars /\ In v select_vars)).
  { intros v. unfold where_vars_of, labeling_vars. simpl.
    rewrite !insert_labeling_var_In. intuition (subst; auto). }
  split; [exact Hel|]. split.
  - unfold where_vars_of, labeling_vars. simpl.
    generalize (natural_where_vars query_text) as w. intros w.
    assert (Hlen : forall l var,
               List.length (insert_labeling_var select_vars l var)
               = List.length l + (if mem var select_vars then 1 else 0)).
    { intros l var. unfold insert_labeling_var.
      destruct (mem var select_vars) eqn:E; [|lia].
      apply mem_In in E. destruct (index_In _ _ E) as [i ->].
      rewrite insert_length. lia. }
    rewrite !Hlen.
    destruct (mem "case" select_vars), (mem "gender" select_vars),
      (mem "auxiliaryVerb" select_vars); simpl; lia.
  - intros v Hv Hin. apply set_diff_In in Hin. destruct Hin as [Hs Hw].
    apply Hw, Hel. right. now split.
Qed.

(** *** More on the header check *)

(** X8: [check_docstring] raises nothing but [IndexError], and raises it
    exactly for the texts with fewer than three lines all of which match
    their patterns; so the empty text raises, and a text of three lines or
    more always gets a verdict. *)
Theorem check_docstring_IndexError (query_text : string) :
  (forall e, check_docstring query_text = Raise e -> e = IndexError)
  /\ (check_docstring query_text = Raise IndexError
      <-> List.length (splitlines query_text) < 3
          /\ forall i line, nth_error (splitlines query_text) i = Some line ->
               docstring_line_ok i line = true)
  /\ (3 <= List.length (splitlines query_text) ->
      exists verdict, check_docstring query_text = Ok verdict).
Proof.
  unfold check_docstring. generalize (splitlines query_text) as query_lines.
  intros query_lines.
  destruct query_lines as [|l1 [|l2 [|l3 rest]]]; simpl.
  - split; [congruence|]. split; [|lia].
    split; [|reflexivity]. intros _. split; [lia|]. intros [|i]; discriminate.
  - unfold docstring_line_ok at 1. simpl.
    destruct (rmatch tool_line_pattern l1) eqn:E1.
    + split; [congruence|]. split; [|lia].
      split; [|reflexivity]. intros _. split; [lia|].
      intros [|[|i]] line H; try discriminate. injection H as <-.
      unfold docstring_line_ok. simpl. now rewrite E1.
    + split; [discriminate|]. split; [|lia]. split; [discriminate|].
      intros [_ H]. specialize (H 0 l1 eq_refl).
      unfold docstring_line_ok in H. simpl in H. rewrite E1 in H. discriminate.
  - destruct (rmatch tool_line_pattern l1) eqn:E1.
    + destruct (rmatch summary_line_pattern l2) eqn:E2.
      * split; [congruence|]. split; [|lia].
        split; [|reflexivity]. intros _. split; [lia|].
        intros [|[|[|i]]] line H; try discriminate; injection H as <-;
          unfold docstring_line_ok; simpl; [now rewrite E1 | now rewrite E2].
      * split; [discriminate|]. split; [|lia]. split; [discriminate|].
        intros [_ H]. specialize (H 1 l2 eq_refl).
        unfold docstring_line_ok in H. simpl in H. rewrite E2 in H. discriminate.
    + split; [discriminate|]. split; [|lia]. split; [discriminate|].
      intros [_ H]. specialize (H 0 l1 eq_refl).
      unfold docstring_line_ok in H. simpl in H. rewrite E1 in H. discriminate.
  - destruct (rmatch tool_line_pattern l1);
      [destruct (rmatch summary_line_pattern l2);
       [destruct (rmatch enter_line_pattern l3)|]|];
      (split; [discriminate|]; split;
       [split; [discriminate | intros [H _]; simpl in H; lia]
       | intros _; eexists; reflexivity]).
Qed.

(** *** More on the formatting check *)

Lemma has_adjacent_cons (p q : ascii -> bool) (c : ascii) (s : string) :
  has_adjacent p q (String c s)
  <-> (exists d t, s = String d t /\ p c = true /\ q d = true) \/ has_adjacent p q s.
Proof.
  unfold has_adjacent. split.
  - intros [l [c' [d [t [H [Hp Hq]]]]]]. destruct l as [|b l]; simpl in H.
    + injection H as -> ->. left. now exists d, t.
    + injection H as -> ->. right. now exists l, c', d, t.
  - intros [[d [t [-> [Hp Hq]]]]|[l [c' [d [t [-> [Hp Hq]]]]]]].
    + now exists EmptyString, c, d, t.
    + now exists (String c l), c', d, t.
Qed.

Lemma check_query_formatting_false_iff (form_text : string) :
  check_query_formatting form_text = false
  <-> has_adjacent is_space (fun d => Ascii.eqb d ","%char) form_text
      \/ has_adjacent (fun c => negb (is_space c))
           (fun d => Ascii.eqb d "."%char || Ascii.eqb d ";"%char) form_text.
Proof.
  unfold check_query_formatting, search.
  pose proof (search_from_adjacent space_comma_pattern is_space
                (fun d => Ascii.eqb d ","%char)
                (match_at_class_char is_space ","%char) form_text 0) as Hcomma.
  pose proof (search_from_adjacent nonspace_stop_pattern
                (fun c => negb (is_space c))
                (fun d => Ascii.eqb d "."%char || Ascii.eqb d ";"%char)
                (match_at_two_classes _ _) form_text 0) as Hstop.
  destruct (search_from space_comma_pattern 0 form_text).
  - split; [|reflexivity]. intros _. left. apply Hcomma. congruence.
  - destruct (search_from nonspace_stop_pattern 0 form_text).
    + split; [|reflexivity]. intros _. right. apply Hstop. congruence.
    + split; [discriminate|].
      intros [H|H]; [apply Hcomma in H | apply Hstop in H]; congruence.
Qed.

Lemma check_query_formatting_well_spaced (form_text : string) :
  check_query_formatting form_text = well_spaced form_text.
Proof.
  destruct (well_spaced form_text) eqn:E.
  - destruct (check_query_formatting form_text) eqn:Ec; [reflexivity|].
    exfalso. apply check_query_formatting_false_iff in Ec.
    revert E Ec. induction form_text as [|c s IH]; intros E Ec.
    + destruct Ec as [[l [c [d [t [H _]]]]]|[l [c [d [t [H _]]]]]]; destruct l; discriminate.
    + rewrite !has_adjacent_cons in Ec. simpl in E.
      destruct s as [|d t].
      * destruct Ec as [[[d [t [H _]]]|[l [c' [d [t [H _]]]]]]|[[d [t [H _]]]|[l [c' [d [t [H _]]]]]]];
          try discriminate; destruct l; discriminate.
      * apply andb_true_iff in E. destruct E as [Ev Ew].
        apply negb_true_iff in Ev. unfold spacing_violation in Ev.
        apply orb_false_iff in Ev. destruct Ev as [Ev1 Ev2].
        destruct Ec as [[[d' [t' [H [Hp Hq]]]]|Hc]|[[d' [t' [H [Hp Hq]]]]|Hs]].
        -- injection H as <- <-. rewrite Hp, Hq in Ev1. discriminate.
        -- apply IH; [assumption | now left].
        -- injection H as <- <-. rewrite Hp, Hq in Ev2. discriminate.
        -- apply IH; [assumption | now right].
  - apply check_query_formatting_false_iff.
    induction form_text as [|c s IH]; [discriminate|].
    simpl in E. destruct s as [|d t]; [discriminate|].
    apply andb_false_iff in E. destruct E as [Ev|Ew].
    + apply negb_false_iff in Ev. unfold spacing_violation in Ev.
      apply orb_true_iff in Ev. destruct Ev as [Ev|Ev];
        apply andb_true_iff in Ev; destruct Ev as [Hp Hq].
      * left. apply has_adjacent_cons. left. now exists d, t.
      * right. apply has_adjacent_cons. left. now exists d, t.
    + destruct (IH Ew) as [H|H]; [left | right]; apply has_adjacent_cons; now right.
Qed.

Lemma well_spaced_cons (x y : ascii) (s : string) :
  well_spaced (String x (String y s))
  = negb (spacing_violation x y) && well_spaced (String y s).
Proof. reflexivity. Qed.

Lemma well_spaced_app (a b : string) (c d : ascii) :
  well_spaced ((a ++ String c EmptyString) ++ String d b)
  = well_spaced (a ++ String c EmptyString) && well_spaced (String d b)
    && negb (spacing_violation c d).
Proof.
  induction a as [|x a IH]; cbn [String.append].
  - rewrite well_spaced_cons. change (well_spaced (String c EmptyString)) with true.
    cbn [andb]. apply andb_comm.
  - destruct a as [|y a]; cbn [String.append] in *.
    + rewrite (well_spaced_cons x c), IH, (well_spaced_cons x c).
      now rewrite !andb_assoc.
    + rewrite (well_spaced_cons x y), IH, (well_spaced_cons x y).
      now rewrite !andb_assoc.
Qed.

(** X9: [check_query_formatting] looks at pairs of adjacent characters
    only, so it composes: a text cut in two is accepted exactly when
    both parts are accepted and the two characters at the cut do not
    break the rule.  Hence every part of an accepted text is accepted. *)
Theorem check_query_formatting_concat :
  (forall a b c d,
     check_query_formatting ((a ++ String c EmptyString) ++ String d b)
     = check_query_formatting (a ++ String c EmptyString)
       && check_query_formatting (String d b)
       && negb (spacing_violation c d))
  /\ (forall a b, check_query_formatting (a ++ b) = true ->
        check_query_formatting a = true /\ check_query_formatting b = true).
Proof.
  split.
  - intros a b c d. rewrite !check_query_formatting_well_spaced. apply well_spaced_app.
  - intros a b. rewrite !check_query_formatting_well_spaced.
    induction a as [|x a IH]; intros H; [now split|].
    cbn [String.append] in H. destruct a as [|y a]; cbn [String.append] in *.
    + split; [reflexivity|].
      destruct b as [|d b]; [reflexivity|].
      rewrite well_spaced_cons in H. now apply andb_true_iff in H.
    + rewrite well_spaced_cons in H.
      apply andb_true_iff in H. destruct H as [Hv Hw].
      destruct (IH Hw) as [Ha Hb]. split; [|exact Hb].
      rewrite well_spaced_cons. now rewrite Hv, Ha.
Qed.

(** *** The run over all files *)




Lemma append_entries_index (query_file_str : string) (findings : list finding) (state : string * nat) :
  snd (fold_left (append_entry query_file_str) findings state)
  = snd state + List.length findings.
Proof.
  revert state. induction findings as [|f findings IH]; intros state; simpl; [lia|].
  rewrite IH. destruct state as [error_output index]. simpl. lia.
Qed.



Lemma query_form_check_dict_has_key (forms : list string) (d0 d : check_dict) (k : option string) :
  foldM add_form_check forms d0 = Ok d ->
  In k (map fst d0)
  \/ (exists form_text, In form_text forms /\ is_form_block form_text = true
                        /\ extract_form_rep_label form_text = k) ->
  In k (map fst d).
Proof.
  revert d0. induction forms as [|form_text forms IH]; intros d0; simpl.
  - intros H. injection H as <-. intros [H|[f [[] _]]]. exact H.
  - destruct (add_form_check d0 form_text) as [d1|] eqn:E; simpl; [|discriminate].
    intros H Hk. apply (IH d1 H).
    apply add_form_check_cases in E.
    destruct E as [[Hno ->]|[Hblock [v [_ ->]]]].
    + destruct Hk as [Hk|[f [[<-|Hin] [Hb Hl]]]]; [now left | congruence |].
      right. now exists f.
    + destruct Hk as [Hk|[f [[<-|Hin] [Hb Hl]]]].
      * left. apply dict_set_keys. now right.
      * left. apply dict_set_keys. now left.
      * right. now exists f.
Qed.

(** X11: a form block from which no representation label can be
    extracted is never silent.  When the checks of a file raise
    nothing, every such block of the file puts an entry under the key
    [None] into the labels finding of the file. *)
Theorem check_query_file_reports_unlabeled (query_text : string) (findings : list finding) (form_text : string) :
  check_query_file query_text = Ok findings ->
  In form_text (map group1_str (finditer optional_pattern query_text)) ->
  is_form_block form_text = true ->
  extract_form_rep_label form_text = None ->
  exists labels msg, In (LabelsFinding labels) findings /\ In (None, msg) labels.
Proof.
  unfold check_query_file. intros H Hin Hblock Hnone.
  destruct (check_docstring query_text) as [verdict|]; simpl in H; [|discriminate].
  unfold extract_forms_from_sparql in H.
  destruct (map group1_str (finditer optional_pattern query_text)) as [|first forms] eqn:Ef;
    [destruct Hin|].
  destruct (query_form_check_dict_of (first :: forms)) as [d|] eqn:Ed; simpl in H;
    [|discriminate].
  assert (Hkey : In None (map fst d)).
  { apply (query_form_check_dict_has_key (first :: forms) [] d None Ed).
    right. now exists form_text. }
  apply in_map_iff in Hkey. destruct Hkey as [[k v] [Hk Hkv]]. simpl in Hk. subst k.
  assert (Hlabel : exists msg, In (None, msg) (incorrect_query_label (None, v))).
  { unfold incorrect_query_label.
    destruct (negb (correct_formatting v)); [eexists; now left|].
    simpl. eexists. now left. }
  destruct Hlabel as [msg Hmsg].
  assert (Hflat : In (None, msg) (flat_map incorrect_query_label d))
    by (apply in_flat_map; now exists (None, v)).
  destruct (flat_map incorrect_query_label d) as [|l labels] eqn:El; [destruct Hflat|].
  simpl in H. injection H as <-.
  exists (l :: labels), msg. split; [|exact Hflat].
  apply in_or_app. right. apply in_or_app. right. now left.
Qed.

(** *** What a match has read *)

Lemma string_length_app (a b : string) :
  String.length (a ++ b) = String.length a + String.length b.
Proof. induction a as [|x a IH]; simpl; [reflexivity | now rewrite IH]. Qed.

Lemma substring_app_prefix (w s : string) :
  substring 0 (String.length w) (w ++ s) = w.
Proof.
  induction w as [|x w IH]; simpl; [now destruct s | now rewrite IH].
Qed.

Lemma drop_prefix_Some (p s s' : string) :
  drop_prefix p s = Some s' <-> s = (p ++ s')%string.
Proof.
  revert s. induction p as [|a p IH]; intros s; simpl.
  - split; congruence.
  - destruct s as [|b s]; [split; discriminate|].
    destruct (Ascii.eqb_spec a b) as [->|Hne].
    + rewrite IH. split; congruence.
    + split; [discriminate | congruence].
Qed.

Lemma rep_greedy_sound {A : Type} (p : ascii -> bool) (s : string) :
  forall (min pos : nat) (k : nat -> string -> option A) (a : A),
    rep_greedy p min pos s k = Some a ->
    exists w s',
      s = (w ++ s')%string /\ all_chars p w = true /\ min <= String.length w
      /\ k (pos + String.length w) s' = Some a.
Proof.
  induction s as [|c s IH]; intros min pos k a; simpl.
  - destruct min; [|discriminate]. intros H.
    exists EmptyString, EmptyString. simpl. rewrite Nat.add_0_r. auto.
  - assert (Hstop : match min with 0 => k pos (String c s) | S _ => None end = Some a ->
                    exists w s',
                      String c s = (w ++ s')%string /\ all_chars p w = true
                      /\ min <= String.length w /\ k (pos + String.length w) s' = Some a).
    { destruct min; [|discriminate]. intros H.
      exists EmptyString, (String c s). simpl. rewrite Nat.add_0_r. auto. }
    destruct (p c) eqn:Ep; [|exact Hstop].
    destruct (rep_greedy p (Nat.pred min) (S pos) s k) as [a'|] eqn:E; [|exact Hstop].
    intros H. injection H as <-.
    destruct (IH _ _ _ _ E) as [w [s' [-> [Hall [Hmin Hk]]]]].
    exists (String c w), s'. simpl. rewrite Ep, Hall.
    rewrite Nat.add_succ_r. repeat split; [lia | exact Hk].
Qed.

Lemma rep_lazy_sound {A : Type} (p : ascii -> bool) (s : string) :
  forall (min pos : nat) (k : nat -> string -> option A) (a : A),
    rep_lazy p min pos s k = Some a ->
    exists w s',
      s = (w ++ s')%string /\ all_chars p w = true /\ min <= String.length w
      /\ k (pos + String.length w) s' = Some a.
Proof.
  induction s as [|c s IH]; intros min pos k a.
  - simpl. destruct min; [|discriminate].
    destruct (k pos EmptyString) eqn:E; [|discriminate]. intros H. injection H as <-.
    exists EmptyString, EmptyString. simpl. rewrite Nat.add_0_r. auto.
  - assert (Hmore : (if p c then rep_lazy p (Nat.pred min) (S pos) s k else None) = Some a ->
                    exists w s',
                      String c s = (w ++ s')%string /\ all_chars p w = true
                      /\ min <= String.length w /\ k (pos + String.length w) s' = Some a).
    { destruct (p c) eqn:Ep; [|discriminate]. intros E.
      destruct (IH _ _ _ _ E) as [w [s' [-> [Hall [Hmin Hk]]]]].
      exists (String c w), s'. simpl. rewrite Ep, Hall.
      rewrite Nat.add_succ_r. repeat split; [lia | exact Hk]. }
    simpl. destruct min; [|exact Hmore].
    destruct (k pos (String c s)) eqn:E; [|exact Hmore].
    intros H. injection H as <-.
    exists EmptyString, (String c s). simpl. rewrite Nat.add_0_r. auto.
Qed.

Lemma mat_sound {A : Type} (r : regex) :
  forall (pos : nat) (s : string) (g : option string)
         (k : nat -> string -> option string -> option A) (a : A),
    mat r pos s g k = Some a ->
    exists w s' g',
      s = (w ++ s')%string /\ accepts r pos w g g'
      /\ k (pos + String.length w) s' g' = Some a.
Proof.
  induction r as [l|p|greedy min p|r1 IH1 r2 IH2|r1 IH1|]; intros pos s g k a; simpl.
  - destruct (drop_prefix l s) as [s'|] eqn:E; [|discriminate].
    apply drop_prefix_Some in E. intros H. now exists l, s', g.
  - destruct s as [|c s]; [discriminate|].
    destruct (p c) eqn:Ep; [|discriminate]. intros H.
    exists (String c EmptyString), s, g. simpl. rewrite Nat.add_1_r.
    split; [reflexivity|]. split; [now exists c | exact H].
  - destruct greedy; intros H.
    + apply rep_greedy_sound in H. destruct H as [w [s' [-> [Hall [Hmin Hk]]]]].
      now exists w, s', g.
    + apply rep_lazy_sound in H. destruct H as [w [s' [-> [Hall [Hmin Hk]]]]].
      now exists w, s', g.
  - intros H. apply IH1 in H. destruct H as [w1 [s1 [g1 [-> [H1 H]]]]].
    apply IH2 in H. destruct H as [w2 [s2 [g2 [-> [H2 H]]]]].
    exists (w1 ++ w2)%string, s2, g2.
    rewrite string_app_assoc, string_length_app, Nat.add_assoc.
    split; [reflexivity|]. split; [now exists w1, w2, g1 | exact H].
  - intros H. apply IH1 in H. destruct H as [w [s' [g1 [-> [H1 H]]]]].
    exists w, s', (Some w). split; [reflexivity|]. split; [split; [now exists g1 | reflexivity]|].
    replace (pos + String.length w - pos) with (String.length w) in H by lia.
    now rewrite substring_app_prefix in H.
  - destruct (Nat.eqb_spec pos 0) as [->|Hne]; [|discriminate]. intros H.
    exists EmptyString, s, g. simpl. auto.
Qed.

Lemma match_at_sound (r : regex) (pos : nat) (s : string) (m : mobj) :
  match_at r pos s = Some m ->
  exists w s',
    s = (w ++ s')%string /\ accepts r pos w None (group1 m) /\ group0 m = w.
Proof.
  unfold match_at. intros H. apply mat_sound in H.
  destruct H as [w [s' [g' [-> [Hacc H]]]]]. injection H as <-. simpl.
  exists w, s'. split; [reflexivity|]. split; [exact Hacc|].
  replace (pos + String.length w - pos) with (String.length w) by lia.
  apply substring_app_prefix.
Qed.

Lemma search_from_sound (r : regex) (s : string) :
  forall (pos : nat) (m : mobj),
    search_from r pos s = Some m ->
    exists pre w post,
      s = (pre ++ w ++ post)%string
      /\ accepts r (pos + String.length pre) w None (group1 m) /\ group0 m = w.
Proof.
  induction s as [|c s IH]; intros pos m; simpl.
  - destruct (match_at r pos EmptyString) eqn:E; [|discriminate].
    intros H. injection H as <-. apply match_at_sound in E.
    destruct E as [w [s' [Hs [Hacc Hg]]]].
    exists EmptyString, w, s'. simpl. now rewrite Nat.add_0_r.
  - destruct (match_at r pos (String c s)) eqn:E.
    + intros H. injection H as <-. apply match_at_sound in E.
      destruct E as [w [s' [Hs [Hacc Hg]]]].
      exists EmptyString, w, s'. simpl. now rewrite Nat.add_0_r.
    + intros H. apply IH in H. destruct H as [pre [w [post [-> [Hacc Hg]]]]].
      exists (String c pre), w, post. simpl. now rewrite Nat.add_succ_r.
Qed.

Lemma finditer_from_sound (r : regex) (s : string) :
  forall (skip pos : nat) (m : mobj),
    In m (finditer_from r s skip pos) ->
    exists pre w post,
      s = (pre ++ w ++ post)%string
      /\ accepts r (pos + String.length pre) w None (group1 m) /\ group0 m = w.
Proof.
  induction s as [|c s IH]; intros skip pos m; simpl.
  - destruct skip; [|intros []].
    destruct (match_at r pos EmptyString) eqn:E; [|intros []].
    intros [<-|[]]. apply match_at_sound in E.
    destruct E as [w [s' [Hs [Hacc Hg]]]].
    exists EmptyString, w, s'. simpl. now rewrite Nat.add_0_r.
  - assert (Hrest : forall skip', In m (finditer_from r s skip' (S pos)) ->
                      exists pre w post,
                        String c s = (pre ++ w ++ post)%string
                        /\ accepts r (pos + String.length pre) w None (group1 m)
                        /\ group0 m = w).
    { intros skip' H. apply IH in H. destruct H as [pre [w [post [-> [Hacc Hg]]]]].
      exists (String c pre), w, post. simpl. now rewrite Nat.add_succ_r. }
    destruct skip; [|apply Hrest].
    destruct (match_at r pos (String c s)) eqn:E; [|apply Hrest].
    intros [<-|H]; [|now apply Hrest in H].
    apply match_at_sound in E. destruct E as [w [s' [Hs [Hacc Hg]]]].
    exists EmptyString, w, s'. simpl. now rewrite Nat.add_0_r.
Qed.

Lemma contains_app (x pre post : string) :
  contains x (pre ++ x ++ post) = true.
Proof.
  induction pre as [|c pre IH].
  - simpl. assert (H : startswith x (x ++ post) = true).
    { unfold startswith.
      destruct (drop_prefix x (x ++ post)) eqn:E; [reflexivity|].
      assert (H : drop_prefix x (x ++ post) = Some post) by now apply drop_prefix_Some.
      congruence. }
    destruct (x ++ post)%string; simpl; now rewrite H.
  - simpl. rewrite IH. apply orb_true_r.
Qed.

Lemma all_chars_app (p : ascii -> bool) (a b : string) :
  all_chars p (a ++ b) = all_chars p a && all_chars p b.
Proof.
  induction a as [|c a IH]; simpl; [reflexivity|]. now rewrite IH, andb_assoc.
Qed.

(** *** What the matcher finds *)

Lemma rep_greedy_complete {A : Type} (p : ascii -> bool) (w s' : string) :
  forall (min pos : nat) (k : nat -> string -> option A),
    all_chars p w = true -> min <= String.length w ->
    k (pos + String.length w) s' <> None ->
    rep_greedy p min pos (w ++ s') k <> None.
Proof.
  induction w as [|c w IH]; intros min pos k Hall Hmin Hk.
  - simpl in *. rewrite Nat.add_0_r in Hk.
    assert (min = 0) by lia. subst min.
    destruct s' as [|d t]; simpl; [exact Hk|].
    destruct (p d); [|exact Hk].
    destruct (rep_greedy p 0 (S pos) t k); [discriminate | exact Hk].
  - simpl in Hall. apply andb_true_iff in Hall. destruct Hall as [Hc Hall].
    simpl. rewrite Hc.
    assert (Hrec : rep_greedy p (Nat.pred min) (S pos) (w ++ s') k <> None).
    { apply IH; [assumption | simpl in Hmin; lia|].
      simpl in Hk. now rewrite Nat.add_succ_r in Hk. }
    destruct (rep_greedy p (Nat.pred min) (S pos) (w ++ s') k); [discriminate | congruence].
Qed.

Lemma rep_lazy_complete {A : Type} (p : ascii -> bool) (w s' : string) :
  forall (min pos : nat) (k : nat -> string -> option A),
    all_chars p w = true -> min <= String.length w ->
    k (pos + String.length w) s' <> None ->
    rep_lazy p min pos (w ++ s') k <> None.
Proof.
  induction w as [|c w IH]; intros min pos k Hall Hmin Hk.
  - simpl in *. rewrite Nat.add_0_r in Hk.
    assert (min = 0) by lia. subst min.
    destruct s' as [|d t]; simpl; destruct (k pos _); congruence.
  - simpl in Hall. apply andb_true_iff in Hall. destruct Hall as [Hc Hall].
    assert (Hrec : rep_lazy p (Nat.pred min) (S pos) (w ++ s') k <> None).
    { apply IH; [assumption | simpl in Hmin; lia|].
      simpl in Hk. now rewrite Nat.add_succ_r in Hk. }
    simpl. rewrite Hc. destruct min; [|exact Hrec].
    destruct (k pos (String c (w ++ s'))); [discriminate | exact Hrec].
Qed.

Lemma mat_complete {A : Type} (r : regex) :
  forall (pos : nat) (w s' : string) (g g' : option string)
         (k : nat -> string -> option string -> option A),
    accepts r pos w g g' ->
    k (pos + String.length w) s' g' <> None ->
    mat r pos (w ++ s') g k <> None.
Proof.
  induction r as [l|p|greedy min p|r1 IH1 r2 IH2|r1 IH1|]; intros pos w s' g g' k; simpl.
  - intros [-> ->] Hk.
    rewrite (proj2 (drop_prefix_Some l (l ++ s') s') eq_refl). exact Hk.
  - intros [c [-> [Hc ->]]] Hk. simpl. rewrite Hc.
    simpl in Hk. now rewrite Nat.add_1_r in Hk.
  - intros [Hall [Hmin ->]] Hk. destruct greedy.
    + now apply rep_greedy_complete.
    + now apply rep_lazy_complete.
  - intros [w1 [w2 [g1 [-> [H1 H2]]]]] Hk. rewrite string_app_assoc.
    apply (IH1 _ _ _ _ g1); [exact H1|].
    apply (IH2 _ _ _ _ g'); [exact H2|].
    now rewrite string_length_app, Nat.add_assoc in Hk.
  - intros [[g1 H1] ->] Hk. apply (IH1 _ _ _ _ g1); [exact H1|].
    replace (pos + String.length w - pos) with (String.length w) by lia.
    now rewrite substring_app_prefix.
  - intros [-> [-> ->]] Hk. simpl. exact Hk.
Qed.

Lemma search_from_complete (r : regex) (pre w post : string) (g' : option string) :
  forall pos,
    accepts r (pos + String.length pre) w None g' ->
    search_from r pos (pre ++ w ++ post) <> None.
Proof.
  induction pre as [|c pre IH]; intros pos Hacc.
  - simpl in Hacc. rewrite Nat.add_0_r in Hacc.
    assert (Hm : match_at r pos (w ++ post) <> None)
      by (unfold match_at; eapply mat_complete; [exact Hacc | discriminate]).
    simpl. destruct (w ++ post)%string; simpl;
      destruct (match_at r pos _); congruence.
  - simpl. destruct (match_at r pos (String c (pre ++ w ++ post))); [discriminate|].
    apply IH. simpl in Hacc. now rewrite Nat.add_succ_r in Hacc.
Qed.

Lemma all_chars_any (s : string) : all_chars any_char s = true.
Proof. induction s as [|c s IH]; simpl; [reflexivity | exact IH]. Qed.

(** *** What the extraction functions return *)

Lemma findall_sound (r : regex) (s v : string) :
  In v (findall r s) ->
  exists pre w post g,
    s = (pre ++ w ++ post)%string /\ accepts r (String.length pre) w None g
    /\ v = match g with Some x => x | None => EmptyString end.
Proof.
  unfold findall, finditer. intros H. apply in_map_iff in H.
  destruct H as [m [<- Hm]]. apply finditer_from_sound in Hm.
  destruct Hm as [pre [w [post [Hs [Hacc Hg]]]]].
  now exists pre, w, post, (group1 m).
Qed.

(** X12: every block returned by [extract_forms_from_sparql] is the text
    between the braces of an [OPTIONAL] that two whitespace characters
    precede, and holds no closing brace: a block is cut at the first
    closing brace after its opening one. *)
Theorem extract_forms_from_sparql_blocks (query_text : string) (forms : list string) (form_text : string) :
  extract_forms_from_sparql (Some query_text) = Some forms ->
  In form_text forms ->
  all_chars (not_char "}"%char) form_text = true
  /\ exists pre c1 c2 ws post,
       query_text
       = (pre ++ String c1 (String c2 ("OPTIONAL" ++ ws ++ "{" ++ form_text ++ "}" ++ post)))%string
       /\ is_space c1 = true /\ is_space c2 = true /\ all_chars is_space ws = true.
Proof.
  unfold extract_forms_from_sparql. intros H Hin. injection H as <-.
  apply in_map_iff in Hin. destruct Hin as [m [<- Hm]].
  apply finditer_from_sound in Hm. destruct Hm as [pre [w [post [-> [Hacc _]]]]].
  unfold optional_pattern in Hacc. simpl in Hacc.
  destruct Hacc as (w1 & x1 & g1 & -> & (c1 & -> & Hc1 & ->) & Hacc).
  destruct Hacc as (w2 & x2 & g2 & -> & (c2 & -> & Hc2 & ->) & Hacc).
  destruct Hacc as (w3 & x3 & g3 & -> & (-> & ->) & Hacc).
  destruct Hacc as (ws & x4 & g4 & -> & (Hws & _ & ->) & Hacc).
  destruct Hacc as (w5 & x5 & g5 & -> & (-> & ->) & Hacc).
  destruct Hacc as (block & x6 & g6 & -> & ((g7 & Hblock & _ & ->) & ->) & -> & Hg).
  unfold group1_str. rewrite Hg. split; [exact Hblock|].
  exists pre, c1, c2, ws, post. repeat split; try assumption.
  simpl. repeat (rewrite string_app_assoc; simpl). reflexivity.
Qed.

Lemma not_empty_min_length (w : string) : w <> EmptyString -> 1 <= String.length w.
Proof. destruct w; simpl; [congruence | lia]. Qed.

Lemma min_length_not_empty (w : string) : 1 <= String.length w -> w <> EmptyString.
Proof. destruct w; simpl; [lia | discriminate]. Qed.

(** X13: [validate_forms] returns the structural error exactly for the
    texts without a span made of "SELECT", whitespace, any text,
    whitespace and "WHERE"; in particular for every text in which
    "SELECT" does not occur, or "WHERE" does not. *)
Theorem validate_forms_no_select_iff (query_text : string) :
  (validate_forms query_text = "Invalid query format: no SELECT match"
   <-> ~ exists pre ws1 selected ws2 post,
         query_text
         = (pre ++ "SELECT" ++ ws1 ++ selected ++ ws2 ++ "WHERE" ++ post)%string
         /\ ws1 <> EmptyString /\ all_chars is_space ws1 = true
         /\ ws2 <> EmptyString /\ all_chars is_space ws2 = true)
  /\ (contains "SELECT" query_text = false \/ contains "WHERE" query_text = false ->
      validate_forms query_text = "Invalid query format: no SELECT match").
Proof.
  assert (Hsound : forall m, search select_pattern query_text = Some m ->
            exists pre ws1 selected ws2 post,
              query_text
              = (pre ++ "SELECT" ++ ws1 ++ selected ++ ws2 ++ "WHERE" ++ post)%string
              /\ ws1 <> EmptyString /\ all_chars is_space ws1 = true
              /\ ws2 <> EmptyString /\ all_chars is_space ws2 = true).
  { intros m E. apply search_from_sound in E.
    destruct E as [pre [w [post [-> [Hacc _]]]]].
    unfold select_pattern in Hacc. simpl in Hacc.
    destruct Hacc as (w1 & x1 & g1 & -> & (-> & ->) & Hacc).
    destruct Hacc as (ws1 & x2 & g2 & -> & (Hs1 & Hm1 & ->) & Hacc).
    destruct Hacc as (grp & x3 & g3 & -> & _ & Hacc).
    destruct Hacc as (ws2 & x4 & g4 & -> & (Hs2 & Hm2 & ->) & -> & _).
    exists pre, ws1, grp, ws2, post.
    repeat split; try assumption; try (now apply min_length_not_empty).
    now rewrite !string_app_assoc. }
  split; [split|].
  - intros Hres [pre [ws1 [selected [ws2 [post [-> [Hn1 [Hs1 [Hn2 Hs2]]]]]]]]].
    assert (Hfound : search select_pattern
                       (pre ++ ("SELECT" ++ ws1 ++ selected ++ ws2 ++ "WHERE") ++ post)
                     <> None).
    { unfold search. apply (search_from_complete _ _ _ _ (Some selected)).
      unfold select_pattern. simpl.
      exists "SELECT", (ws1 ++ selected ++ ws2 ++ "WHERE")%string, None.
      split; [reflexivity|]. split; [now split|].
      exists ws1, (selected ++ ws2 ++ "WHERE")%string, None.
      split; [reflexivity|].
      split; [repeat split; [assumption | now apply not_empty_min_length]|].
      exists selected, (ws2 ++ "WHERE")%string, (Some selected).
      split; [reflexivity|].
      split; [split; [exists None; repeat split; [apply all_chars_any | lia] | reflexivity]|].
      exists ws2, "WHERE", (Some selected).
      split; [reflexivity|].
      split; [repeat split; [assumption | now apply not_empty_min_length]|].
      now split. }
    rewrite !string_app_assoc in Hfound. revert Hres.
    unfold validate_forms, select_vars_of.
    destruct (search select_pattern _) as [m|]; [|congruence].
    cbv zeta.
    destruct (negb _); [discriminate|].
    destruct (set_diff _ _); [|discriminate].
    destruct (set_diff _ _); [|discriminate].
    destruct (negb _); discriminate.
  - intros Hno. unfold validate_forms, select_vars_of.
    destruct (search select_pattern query_text) as [m|] eqn:E; [|reflexivity].
    exfalso. apply Hno. now apply (Hsound m).
  - intros Hno. unfold validate_forms, select_vars_of.
    destruct (search select_pattern query_text) as [m|] eqn:E; [|reflexivity].
    exfalso. destruct (Hsound m eq_refl) as [pre [ws1 [selected [ws2 [post [-> _]]]]]].
    destruct Hno as [Hno|Hno].
    + rewrite contains_app in Hno. discriminate.
    + assert (Hshape : (pre ++ "SELECT" ++ ws1 ++ selected ++ ws2 ++ "WHERE" ++ post)%string
                       = ((pre ++ "SELECT" ++ ws1 ++ selected ++ ws2) ++ "WHERE" ++ post)%string)
        by (now rewrite !string_app_assoc).
      rewrite Hshape, contains_app in Hno. discriminate.
Qed.

Lemma is_word_not_separator (c : ascii) :
  is_word c = true -> negb (Ascii.eqb c " "%char || Ascii.eqb c ";"%char) = true.
Proof.
  destruct c as [[] [] [] [] [] [] [] []]; vm_compute; congruence.
Qed.

Lemma all_chars_impl (p q : ascii -> bool) (s : string) :
  (forall c, p c = true -> q c = true) -> all_chars p s = true -> all_chars q s = true.
Proof.
  intros Hpq. induction s as [|c s IH]; simpl; [reflexivity|].
  intros H. apply andb_true_iff in H. destruct H as [Hc Hs].
  now rewrite (Hpq c Hc), IH.
Qed.

(** X14: no variable that [validate_forms] works with is empty or holds
    a separator: every selection variable is a non-empty run of word
    characters, and every variable of the pattern list is non-empty and
    holds neither a space nor a semicolon.  So the names joined by ", "
    in an error text can be told apart. *)
Theorem validate_forms_variables (query_text : string) (select_vars : list string) :
  select_vars_of query_text = Some select_vars ->
  (forall v, In v select_vars -> v <> EmptyString /\ all_chars is_word v = true)
  /\ (forall v, In v (where_vars_of select_vars query_text) ->
        v <> EmptyString
        /\ all_chars (fun c => negb (Ascii.eqb c " "%char || Ascii.eqb c ";"%char)) v = true).
Proof.
  intros Hsel.
  assert (Hselect : forall v, In v select_vars -> v <> EmptyString /\ all_chars is_word v = true).
  { unfold select_vars_of in Hsel.
    destruct (search select_pattern query_text) as [m|]; [|discriminate].
    injection Hsel as <-. intros v Hv.
    assert (Hin : In v (findall variable_pattern (group1_str m))).
    { rewrite <- (firstn_skipn 2 (findall variable_pattern (group1_str m))).
      apply in_or_app. now right. }
    apply findall_sound in Hin. destruct Hin as [pre [w [post [g [_ [Hacc ->]]]]]].
    unfold variable_pattern in Hacc. simpl in Hacc.
    destruct Hacc as (w1 & x1 & g1 & _ & _ & (_ & Hall & Hmin & _) & ->).
    split; [now apply min_length_not_empty | exact Hall]. }
  split; [exact Hselect|].
  intros v Hv. unfold where_vars_of, labeling_vars in Hv. simpl in Hv.
  rewrite !insert_labeling_var_In in Hv.
  assert (Hword : In v select_vars ->
                  v <> EmptyString
                  /\ all_chars (fun c => negb (Ascii.eqb c " "%char || Ascii.eqb c ";"%char)) v = true).
  { intros H. destruct (Hselect v H) as [Hne Hall]. split; [exact Hne|].
    eapply all_chars_impl; [apply is_word_not_separator | exact Hall]. }
  destruct Hv as [[[Hv|[-> Hv]]|[-> Hv]]|[-> Hv]]; try (now apply Hword).
  unfold natural_where_vars in Hv. apply in_app_or in Hv. destruct Hv as [Hv|Hv].
  - destruct (list_eqb (findall dt_pattern query_text) ["lemma"]).
    + destruct Hv as [<-|[]]. split; [discriminate | reflexivity].
    + destruct (findall dt_pattern query_text) as [|x rest] eqn:E; [destruct Hv|].
      destruct Hv as [<-|[]].
      assert (Hin : In x (findall dt_pattern query_text)) by (rewrite E; now left).
      apply findall_sound in Hin. destruct Hin as [pre [w [post [g [_ [Hacc ->]]]]]].
      unfold dt_pattern in Hacc. simpl in Hacc.
      destruct Hacc as (w1 & x1 & g1 & _ & _ & Hacc).
      destruct Hacc as (w2 & x2 & g2 & _ & _ & Hacc).
      destruct Hacc as (w3 & x3 & g3 & _ & _ & Hacc).
      destruct Hacc as (w4 & x4 & g4 & _ & _ & Hacc).
      destruct Hacc as (w5 & x5 & g5 & _ & _ & Hacc).
      destruct Hacc as (w6 & x6 & g6 & _ & _ & Hacc).
      destruct Hacc as (w7 & x7 & g7 & _ & _ & Hacc).
      destruct Hacc as (w8 & x8 & g8 & _ & _ & Hacc).
      destruct Hacc as (w9 & x9 & g9 & _ & ((g0 & Hall & Hmin & _) & ->) & Hacc).
      destruct Hacc as (wa & xa & ga & _ & (_ & _ & ->) & Hacc).
      destruct Hacc as (wb & xb & gb & _ & (cb & _ & _ & ->) & (_ & _ & ->)).
      split; [now apply min_length_not_empty|].
      eapply all_chars_impl; [apply is_word_not_separator | exact Hall].
  - apply findall_sound in Hv. destruct Hv as [pre [w [post [g [_ [Hacc ->]]]]]].
    unfold forms_pattern in Hacc. simpl in Hacc.
    destruct Hacc as (w1 & x1 & g1 & _ & _ & (_ & Hall & Hmin & _) & ->).
    split; [now apply min_length_not_empty | exact Hall].
Qed.

(** *** Stripped labels *)

Lemma lstrip_head (s : string) :
  lstrip s = EmptyString
  \/ exists c t, lstrip s = String c t /\ is_space c = false.
Proof.
  induction s as [|c s IH]; simpl; [now left|].
  destruct (is_space c) eqn:E; [exact IH|]. right. now exists c, s.
Qed.

Lemma rstrip_rstrip (s : string) : rstrip (rstrip s) = rstrip s.
Proof.
  induction s as [|c s IH]; simpl; [reflexivity|].
  destruct (rstrip s) as [|d t] eqn:E.
  - destruct (is_space c) eqn:Ec; simpl; [reflexivity | now rewrite Ec].
  - simpl. simpl in IH. destruct (rstrip t) as [|d' t'] eqn:Et.
    + destruct (is_space d); [discriminate|]. now rewrite IH.
    + now rewrite IH.
Qed.

Lemma lstrip_strip (s : string) : lstrip (strip s) = strip s.
Proof.
  unfold strip. destruct (lstrip_head s) as [->|[c [t [-> Hc]]]]; [reflexivity|].
  cbn [rstrip]. destruct (rstrip t) as [|d t'].
  - rewrite Hc. simpl. now rewrite Hc.
  - simpl. now rewrite Hc.
Qed.

Lemma rstrip_strip (s : string) : rstrip (strip s) = strip s.
Proof. unfold strip. apply rstrip_rstrip. Qed.

Lemma lstrip_all_chars (p : ascii -> bool) (s : string) :
  all_chars p s = true -> all_chars p (lstrip s) = true.
Proof.
  induction s as [|c s IH]; simpl; [reflexivity|]. intros H.
  apply andb_true_iff in H. destruct H as [Hc Hs].
  destruct (is_space c); [now apply IH | simpl; now rewrite Hc, Hs].
Qed.

Lemma rstrip_all_chars (p : ascii -> bool) (s : string) :
  all_chars p s = true -> all_chars p (rstrip s) = true.
Proof.
  induction s as [|c s IH]; simpl; [reflexivity|]. intros H.
  apply andb_true_iff in H. destruct H as [Hc Hs]. specialize (IH Hs).
  destruct (rstrip s) as [|d t].
  - destruct (is_space c); simpl; [reflexivity | now rewrite Hc].
  - simpl. simpl in IH. now rewrite Hc, IH.
Qed.

Lemma strip_all_chars (p : ascii -> bool) (s : string) :
  all_chars p s = true -> all_chars p (strip s) = true.
Proof. intros H. unfold strip. now apply rstrip_all_chars, lstrip_all_chars. Qed.

(** X15: a label returned by [extract_form_rep_label] comes from a
    representation statement written on one line of the block and
    closed by " ;"; the label itself holds no newline and neither starts
    nor ends with whitespace. *)
Theorem extract_form_rep_label_shape (form_text label : string) :
  extract_form_rep_label form_text = Some label ->
  (exists pre statement post,
     form_text = (pre ++ "ontolex:representation " ++ statement ++ " ;" ++ post)%string
     /\ all_chars is_dot statement = true)
  /\ all_chars is_dot label = true
  /\ lstrip label = label /\ rstrip label = label.
Proof.
  unfold extract_form_rep_label.
  destruct (search onto_rep_pattern form_text) as [line_match|] eqn:E1; [|discriminate].
  destruct (search rep_label_pattern (group0 line_match)) as [label_match|] eqn:E2;
    [|discriminate].
  intros H. injection H as <-.
  apply search_from_sound in E1. destruct E1 as [pre [w [post [-> [Hacc _]]]]].
  unfold onto_rep_pattern in Hacc. simpl in Hacc.
  destruct Hacc as (w1 & x1 & g1 & -> & (-> & ->) & Hacc).
  destruct Hacc as (statement & x2 & g2 & -> & (Hst & _ & ->) & -> & _).
  apply search_from_sound in E2. destruct E2 as [pre2 [w2 [post2 [_ [Hacc2 _]]]]].
  unfold rep_label_pattern in Hacc2. simpl in Hacc2.
  destruct Hacc2 as (a1 & y1 & h1 & _ & _ & Hacc2).
  destruct Hacc2 as (a2 & y2 & h2 & _ & _ & Hacc2).
  destruct Hacc2 as (grp & y3 & h3 & _ & ((h4 & Hgrp & _) & ->) & _ & Hg).
  unfold group1_str. rewrite Hg.
  split; [|split; [now apply strip_all_chars | split; [apply lstrip_strip | apply rstrip_strip]]].
  exists pre, statement, post. split; [|exact Hst].
  now rewrite !string_app_assoc.
Qed.

Lemma search_rep_label_None_iff (s : string) :
  search rep_label_pattern s = None
  <-> ~ exists pre v post,
          s = (pre ++ "?" ++ v ++ ";" ++ post)%string /\ all_chars is_dot v = true.
Proof.
  split.
  - intros Hnone (pre & v & post & -> & Hv).
    assert (Hfound : search rep_label_pattern (pre ++ "?" ++ v ++ ";" ++ post) <> None).
    { unfold search.
      replace (pre ++ "?" ++ v ++ ";" ++ post)%string
        with (pre ++ (EmptyString ++ "?" ++ v ++ ";") ++ post)%string
        by (simpl; repeat (rewrite string_app_assoc; simpl); reflexivity).
      apply (search_from_complete _ _ _ _ (Some v)).
      unfold rep_label_pattern. simpl.
      exists EmptyString, ("?" ++ v ++ ";")%string, None.
      split; [reflexivity|]. split; [repeat split; lia|].
      exists "?", (v ++ ";")%string, None.
      split; [reflexivity|]. split; [now split|].
      exists v, ";", (Some v).
      split; [reflexivity|]. split; [|now split].
      split; [|reflexivity]. exists None. repeat split; [exact Hv | lia]. }
    congruence.
  - intros Hno. destruct (search rep_label_pattern s) as [m|] eqn:E; [|reflexivity].
    exfalso. apply Hno. apply search_from_sound in E.
    destruct E as [pre [w [post [-> [Hacc _]]]]].
    unfold rep_label_pattern in Hacc. simpl in Hacc.
    destruct Hacc as (w1 & x1 & g1 & -> & _ & Hacc).
    destruct Hacc as (w2 & x2 & g2 & -> & (-> & _) & Hacc).
    destruct Hacc as (v & x3 & g3 & -> & ((g0 & Hv & _ & _) & _) & (-> & _)).
    exists (pre ++ w1)%string, v, post. split; [|exact Hv].
    repeat (rewrite string_app_assoc; simpl). reflexivity.
Qed.

Lemma form_label_found (form_text : string) (line_match : mobj) :
  search form_label_line_pattern form_text = Some line_match ->
  contains "?lexeme ontolex:lexicalForm " form_text = true
  /\ exists label_match, search form_label_pattern (group0 line_match) = Some label_match.
Proof.
  intros E1. apply search_from_sound in E1.
  destruct E1 as [pre [w [post [-> [Hacc Hg0]]]]].
  unfold form_label_line_pattern in Hacc. simpl in Hacc.
  destruct Hacc as (w1 & x1 & g1 & -> & (-> & ->) & Hacc).
  destruct Hacc as (rest & x2 & g2 & -> & (Hrest & _ & ->) & -> & _).
  split; [now rewrite string_app_assoc, contains_app|].
  assert (Hfound : search form_label_pattern (group0 line_match) <> None).
  { rewrite Hg0. unfold search.
    set (bound := ("lexeme ontolex:lexicalForm " ++ rest ++ " ")%string).
    assert (Hbound : all_chars is_dot bound = true).
    { unfold bound.
      change ("lexeme ontolex:lexicalForm " ++ rest ++ " ")%string
        with ("lexeme ontolex:lexicalForm " ++ (rest ++ " "))%string.
      rewrite all_chars_app, all_chars_app, Hrest. reflexivity. }
    replace ("?lexeme ontolex:lexicalForm " ++ rest ++ " .")%string
      with (EmptyString ++ (EmptyString ++ "?" ++ bound ++ ".") ++ EmptyString)%string.
    2:{ unfold bound. simpl. rewrite string_app_nil_r.
        repeat (rewrite string_app_assoc; simpl). reflexivity. }
    apply (search_from_complete _ _ _ _ (Some bound)).
    unfold form_label_pattern. simpl.
    exists EmptyString, ("?" ++ bound ++ ".")%string, None.
    split; [reflexivity|]. split; [repeat split; lia|].
    exists "?", (bound ++ ".")%string, None.
    split; [reflexivity|]. split; [now split|].
    exists bound, ".", (Some bound).
    split; [reflexivity|]. split; [|now split].
    split; [|reflexivity]. exists None. repeat split; [exact Hbound | lia]. }
  destruct (search form_label_pattern (group0 line_match)) as [label_match|];
    [now exists label_match | congruence].
Qed.

(** X16: [check_form_label] answers [False] for a block without the text
    "?lexeme ontolex:lexicalForm ".  When the line of the lexical form is
    found, the form label is found in it too, and the call raises in two
    cases and in no other: the pattern built from that form label does
    not compile, and the error of the compilation is raised; or the
    pattern compiles and the statement it finds in the block holds no
    question mark that a semicolon follows on the same line, and
    [UnboundLocalError] is raised.  The pattern of a label without
    special characters always compiles: a compilation error is the error
    of compiling the label followed by " ontolex:representation .* ;",
    for a label with a special character. *)
Theorem check_form_label_outcomes (form_text : string) :
  (contains "?lexeme ontolex:lexicalForm " form_text = false ->
   check_form_label form_text = Ok false)
  /\ (forall line_match,
        search form_label_line_pattern form_text = Some line_match ->
        exists label_match,
          search form_label_pattern (group0 line_match) = Some label_match
          /\ forall e,
               check_form_label form_text = Raise e
               <-> (scoped_onto_rep_pattern (strip (group1_str label_match)) = Raise e
                    \/ (e = UnboundLocalError
                        /\ exists pattern statement,
                             scoped_onto_rep_pattern (strip (group1_str label_match))
                             = Ok pattern
                             /\ search pattern form_text = Some statement
                             /\ ~ exists pre v post,
                                    group0 statement
                                    = (pre ++ "?" ++ v ++ ";" ++ post)%string
                                    /\ all_chars is_dot v = true)))
  /\ (forall form_label e,
        scoped_onto_rep_pattern form_label = Raise e ->
        forallb (fun c => negb (is_re_special c)) (list_ascii_of_string form_label) = false
        /\ compile_interpolated (form_label ++ " ontolex:representation .* ;") = Raise e).
Proof.
  split; [|split].
  - intros Hno. unfold check_form_label.
    destruct (search form_label_line_pattern form_text) as [line_match|] eqn:E1;
      [|reflexivity].
    apply form_label_found in E1. destruct E1 as [Hyes _]. congruence.
  - intros line_match E1.
    destruct (form_label_found _ _ E1) as [_ [label_match E2]].
    exists label_match. split; [exact E2|].
    intros e. unfold check_form_label. rewrite E1, E2. cbv zeta.
    destruct (scoped_onto_rep_pattern (strip (group1_str label_match)))
      as [pattern|e'] eqn:Ep; simpl.
    + destruct (search pattern form_text) as [statement|] eqn:Es.
      * destruct (search rep_label_pattern (group0 statement)) as [m|] eqn:El.
        -- split; [discriminate|].
           intros [H|[_ (pattern' & statement' & Hp & Hs' & Hno)]]; [discriminate|].
           injection Hp as <-. rewrite Es in Hs'. injection Hs' as <-.
           apply search_rep_label_None_iff in Hno. congruence.
        -- split.
           ++ intros H. injection H as <-. right. split; [reflexivity|].
              exists pattern, statement. split; [reflexivity|]. split; [exact Es|].
              now apply search_rep_label_None_iff.
           ++ intros [H|[-> _]]; [discriminate | reflexivity].
      * split; [discriminate|].
        intros [H|[_ (pattern' & statement' & Hp & Hs' & _)]]; [discriminate|].
        injection Hp as <-. congruence.
    + split.
      * intros H. injection H as <-. now left.
      * intros [H|[_ (pattern' & statement' & Hp & _)]]; [congruence | discriminate].
  - intros form_label e. unfold scoped_onto_rep_pattern.
    destruct (forallb _ _); [discriminate|]. now split.
Qed.

(** *** Accepted headers *)

Lemma splitlines_not_nil (c : ascii) (s : string) : splitlines (String c s) <> [].
Proof.
  simpl. destruct (is_linebreak c).
  - destruct s as [|d s]; [discriminate|].
    destruct (Ascii.eqb c CR && Ascii.eqb d LF); discriminate.
  - destruct (splitlines s); discriminate.
Qed.

Lemma splitlines_cons (t l1 : string) (rest : list string) :
  splitlines t = l1 :: rest ->
  exists r, t = (l1 ++ r)%string /\ splitlines r = rest.
Proof.
  revert l1 rest. induction t as [|c s IH]; intros l1 rest; [discriminate|].
  cbn [splitlines]. destruct (is_linebreak c).
  - destruct s as [|d s'].
    + intros H. injection H as <- <-. now exists EmptyString.
    + destruct (Ascii.eqb c CR && Ascii.eqb d LF); intros H; injection H as <- <-.
      * now exists s'.
      * now exists (String d s').
  - destruct (splitlines s) as [|l ls] eqn:E.
    + intros H. injection H as <- <-. exists EmptyString.
      destruct s as [|d s']; [now split|]. now apply splitlines_not_nil in E.
    + intros H. injection H as <- <-.
      destruct (IH l ls eq_refl) as [r [-> Hr]]. now exists r.
Qed.

Lemma splitlines_line (body s : string) :
  all_chars (fun c => negb (is_linebreak c)) body = true ->
  splitlines (body ++ String LF s) = (body ++ String LF EmptyString)%string :: splitlines s.
Proof.
  induction body as [|c body IH]; intros Hall.
  - cbn [String.append splitlines].
    change (is_linebreak LF) with true. cbv iota.
    destruct s as [|d s']; [reflexivity|].
    change (Ascii.eqb LF CR) with false. reflexivity.
  - simpl in Hall. apply andb_true_iff in Hall. destruct Hall as [Hc Hall].
    apply negb_true_iff in Hc.
    cbn [String.append splitlines]. rewrite Hc, (IH Hall). reflexivity.
Qed.

Lemma literal_line_exact (body line r : string) (rest : list string) :
  all_chars (fun c => negb (is_linebreak c)) body = true ->
  splitlines (line ++ r) = line :: rest ->
  startswith (body ++ String LF EmptyString) line = true ->
  line = (body ++ String LF EmptyString)%string.
Proof.
  intros Hbody Hsplit Hstart. unfold startswith in Hstart.
  destruct (drop_prefix (body ++ String LF EmptyString) line) as [x|] eqn:E; [|discriminate].
  apply drop_prefix_Some in E. subst line.
  rewrite !string_app_assoc in Hsplit. cbn [String.append] in Hsplit.
  rewrite (splitlines_line body _ Hbody) in Hsplit.
  injection Hsplit as Hline _.
  rewrite string_app_assoc. cbn [String.append]. symmetry. exact Hline.
Qed.

(** X17: the texts that [check_docstring] accepts are those made of the
    line "# tool: scribe-data", a second line that matches the summary
    pattern, the line "# Enter this query at
    https://query.wikidata.org/." and anything after: an accepted text
    has that shape, and every text of that shape whose second line holds
    no other line boundary than its final newline is accepted. *)
Theorem check_docstring_accepted (query_text : string) :
  (check_docstring query_text = Ok DocTrue ->
   exists summary rest,
     query_text
     = (("# tool: scribe-data" ++ String LF EmptyString) ++ summary
        ++ ("# Enter this query at https://query.wikidata.org/." ++ String LF EmptyString)
        ++ rest)%string
     /\ docstring_line_ok 1 summary = true)
  /\ (forall body rest,
        all_chars (fun c => negb (is_linebreak c)) body = true ->
        docstring_line_ok 1 (body ++ String LF EmptyString) = true ->
        query_text
        = (("# tool: scribe-data" ++ String LF EmptyString) ++ (body ++ String LF EmptyString)
           ++ ("# Enter this query at https://query.wikidata.org/." ++ String LF EmptyString)
           ++ rest)%string ->
        check_docstring query_text = Ok DocTrue).
Proof.
  split.
  - unfold check_docstring.
    destruct (splitlines query_text) as [|l1 [|l2 [|l3 lines]]] eqn:E; simpl;
      try discriminate;
      try (destruct (rmatch tool_line_pattern l1); discriminate);
      try (destruct (rmatch tool_line_pattern l1);
           [destruct (rmatch summary_line_pattern l2)|]; discriminate).
    destruct (rmatch tool_line_pattern l1) eqn:E1; [|discriminate].
    destruct (rmatch summary_line_pattern l2) eqn:E2; [|discriminate].
    destruct (rmatch enter_line_pattern l3) eqn:E3; [|discriminate].
    intros _.
    destruct (splitlines_cons _ _ _ E) as [r1 [Ht1 Hr1]].
    destruct (splitlines_cons _ _ _ Hr1) as [r2 [Ht2 Hr2]].
    destruct (splitlines_cons _ _ _ Hr2) as [r3 [Ht3 Hr3]].
    assert (H1 : l1 = ("# tool: scribe-data" ++ String LF EmptyString)%string).
    { apply (literal_line_exact _ l1 r1 (l2 :: l3 :: lines)); [reflexivity | now rewrite <- Ht1|].
      pose proof (rmatch_two_literals "# tool: scribe-data" (String LF EmptyString) l1) as H.
      fold tool_line_pattern in H. rewrite E1 in H. now symmetry. }
    assert (H3 : l3 = ("# Enter this query at https://query.wikidata.org/."
                       ++ String LF EmptyString)%string).
    { apply (literal_line_exact _ l3 r3 lines); [reflexivity | now rewrite <- Ht3|].
      pose proof (rmatch_two_literals "# Enter this query at https://query.wikidata.org/."
                    (String LF EmptyString) l3) as H.
      fold enter_line_pattern in H. rewrite E3 in H. now symmetry. }
    exists l2, r3. split.
    + now rewrite Ht1, Ht2, Ht3, H1, H3.
    + unfold docstring_line_ok. simpl. now rewrite E2.
  - intros body rest Hbody Hsummary ->. unfold check_docstring.
    match goal with |- context [splitlines ?t] =>
      replace t with ("# tool: scribe-data" ++ String LF (body ++ String LF
                        ("# Enter this query at https://query.wikidata.org/."
                         ++ String LF rest)))%string
        by (rewrite !string_app_assoc; reflexivity)
    end.
    rewrite (splitlines_line "# tool: scribe-data" _ eq_refl).
    rewrite (splitlines_line body _ Hbody).
    rewrite (splitlines_line "# Enter this query at https://query.wikidata.org/." _ eq_refl).
    unfold docstring_line_ok in Hsummary. simpl in Hsummary.
    cbn [check_docstring_from docstring_patterns nth_error].
    change (rmatch tool_line_pattern ("# tool: scribe-data" ++ String LF EmptyString))
      with (Some (MObj 0 20 ("# tool: scribe-data" ++ String LF EmptyString) None)).
    cbv iota.
    destruct (rmatch summary_line_pattern (body ++ String LF EmptyString)); [|discriminate].
    reflexivity.
Qed.

(** *** The checks of one form block *)

Lemma mapM_length {A B : Type} (f : A -> pyresult B) (l : list A) (l' : list B) :
  mapM f l = Ok l' -> List.length l' = List.length l.
Proof.
  revert l'. induction l as [|a l IH]; intros l'; simpl.
  - intros H. now injection H as <-.
  - destruct (f a); simpl; [|discriminate].
    destruct (mapM f l) as [bs|]; simpl; [|discriminate].
    intros H. injection H as <-. simpl. now rewrite (IH bs).
Qed.

Lemma extract_form_qids_found (form_text : string) (found : option (list string)) :
  extract_form_qids form_text = Ok found ->
  (contains "wikibase:grammaticalFeature " form_text = false -> found = None)
  /\ (forall l, found = Some l -> l <> []).
Proof.
  unfold extract_form_qids.
  destruct (search qids_pattern form_text) as [m|] eqn:E.
  - destruct (mapM _ (split ", " (group0 m))) as [l|] eqn:El; simpl; [|discriminate].
    intros H. injection H as <-. split.
    + intros Hno. exfalso. apply search_from_sound in E.
      destruct E as [pre [w [post [-> [Hacc _]]]]].
      unfold qids_pattern in Hacc. simpl in Hacc.
      destruct Hacc as (w1 & x1 & g1 & -> & (-> & ->) & _).
      rewrite string_app_assoc, contains_app in Hno. discriminate.
    + intros l' H. injection H as <-. apply mapM_length in El.
      unfold split in El. destruct (split_from ", " (group0 m) 0) as [p ps].
      destruct l; [discriminate | discriminate].
  - intros H. injection H as <-. split; [reflexivity | discriminate].
Qed.

(** X18: how the checks of a form block fit together.  The entry is
    filed under the extracted representation label; its formatting flag
    is the verdict of [check_query_formatting]; its list of codes, when
    there is one, is not empty and resolves to the stored label; and the
    stored label is "Invalid query formatting found" exactly when no
    feature statement was found, which is the case of every block
    without the text "wikibase:grammaticalFeature ". *)
Theorem check_form_results (form_text : string) (k : option string) (v : form_check) :
  check_form form_text = Ok (k, v) ->
  k = extract_form_rep_label form_text
  /\ correct_formatting v = check_query_formatting form_text
  /\ (qids v = None <-> correct_form_rep_label v = "Invalid query formatting found")
  /\ (contains "wikibase:grammaticalFeature " form_text = false -> qids v = None)
  /\ (forall l, qids v = Some l ->
        l <> [] /\ return_correct_form_label (Some l) = Ok (correct_form_rep_label v)).
Proof.
  unfold check_form.
  destruct (check_form_label form_text) as [check|]; simpl; [|discriminate].
  destruct (extract_form_qids form_text) as [found|] eqn:Eq; simpl; [|discriminate].
  destruct (return_correct_form_label found) as [correct|] eqn:Ec; simpl; [|discriminate].
  intros H. injection H as <- <-. simpl.
  destruct (extract_form_qids_found _ _ Eq) as [Hno Hne].
  split; [reflexivity|]. split; [reflexivity|]. split; [|split; [exact Hno|]].
  - split.
    + intros ->. simpl in Ec. congruence.
    + intros ->. apply invalid_formatting_label_iff in Ec.
      destruct Ec as [Hf|Hf]; [exact Hf|]. exfalso. now apply (Hne []).
  - intros l ->. split; [now apply Hne | exact Ec].
Qed.

(** *** The codes of a feature statement *)

Lemma contains_empty (sep : string) : sep <> EmptyString -> contains sep EmptyString = false.
Proof. destruct sep; [congruence | reflexivity]. Qed.

Lemma split_from_tail_nil (sep s : string) :
  sep <> EmptyString ->
  snd (split_from sep s 0) = [] <-> contains sep s = false.
Proof.
  clear compile_interpolated.
  intros Hsep. induction s as [|c s IH].
  - rewrite contains_empty by assumption. simpl. tauto.
  - cbn [split_from contains]. destruct (startswith sep (String c s)).
    + destruct (split_from sep s (String.length sep - 1)) as [p ps]. simpl.
      split; discriminate.
    + destruct (split_from sep s 0) as [p ps]. simpl in *. exact IH.
Qed.

Lemma item_1_split (sep s : string) :
  sep <> EmptyString ->
  (contains sep s = false -> item 1 (split sep s) = Raise IndexError)
  /\ (contains sep s = true -> exists a, item 1 (split sep s) = Ok a).
Proof.
  clear compile_interpolated.
  intros Hsep. pose proof (split_from_tail_nil sep s Hsep) as H.
  unfold split, item. destruct (split_from sep s 0) as [p ps]. simpl in *.
  destruct ps as [|a ps]; split; intros Hc.
  - reflexivity.
  - destruct H as [H _]. rewrite H in Hc by reflexivity. discriminate.
  - destruct H as [_ H]. now apply H in Hc.
  - now exists a.
Qed.

Lemma startswith_app (sep p r : string) :
  startswith sep p = true -> startswith sep (p ++ r) = true.
Proof.
  unfold startswith. destruct (drop_prefix sep p) as [x|] eqn:E; [|discriminate].
  intros _. apply drop_prefix_Some in E. subst p.
  rewrite string_app_assoc.
  assert (H : drop_prefix sep (sep ++ x ++ r) = Some (x ++ r)%string)
    by now apply drop_prefix_Some.
  now rewrite H.
Qed.

Lemma split_from_head_prefix (sep s : string) :
  exists r, s = (fst (split_from sep s 0) ++ r)%string.
Proof.
  induction s as [|c s [r IH]]; [now exists EmptyString|].
  cbn [split_from]. destruct (startswith sep (String c s)).
  - destruct (split_from sep s (String.length sep - 1)) as [p ps].
    now exists (String c s).
  - destruct (split_from sep s 0) as [p ps]. simpl in *. exists r. now rewrite IH at 1.
Qed.

Lemma split_from_head_clean (sep s : string) :
  sep <> EmptyString -> contains sep (fst (split_from sep s 0)) = false.
Proof.
  intros Hsep. induction s as [|c s IH]; [now apply contains_empty|].
  cbn [split_from]. destruct (startswith sep (String c s)) eqn:E.
  - destruct (split_from sep s (String.length sep - 1)) as [p ps].
    now apply contains_empty.
  - destruct (split_from_head_prefix sep s) as [r Hr].
    destruct (split_from sep s 0) as [p ps]. simpl in *.
    rewrite IH, orb_false_r.
    destruct (startswith sep (String c p)) eqn:E'; [|reflexivity].
    apply (startswith_app _ _ r) in E'. simpl in E'. rewrite <- Hr in E'. congruence.
Qed.

Lemma mapM_Raise {A B : Type} (f : A -> pyresult B) (l : list A) (e : exn) :
  mapM f l = Raise e -> exists x, In x l /\ f x = Raise e.
Proof.
  induction l as [|a l IH]; simpl; [discriminate|].
  destruct (f a) as [b|e'] eqn:E; simpl.
  - destruct (mapM f l) as [bs|e'']; simpl; [discriminate|].
    intros H. injection H as ->. destruct (IH eq_refl) as [x [Hx Hf]].
    exists x. now split; [right|].
  - intros H. injection H as ->. exists a. now split; [left|].
Qed.

Lemma mapM_Raise_intro {A B : Type} (f : A -> pyresult B) (l : list A) (x : A) (e : exn) :
  In x l -> f x = Raise e ->
  (forall y e', f y = Raise e' -> e' = e) ->
  mapM f l = Raise e.
Proof.
  intros Hin Hx Honly. induction l as [|a l IH]; [destruct Hin|].
  simpl. destruct (f a) as [b|e'] eqn:E; simpl.
  - destruct Hin as [->|Hin]; [congruence|]. now rewrite (IH Hin).
  - now rewrite (Honly a e' E).
Qed.

Lemma mapM_Ok_In {A B : Type} (f : A -> pyresult B) (l : list A) (l' : list B) :
  mapM f l = Ok l' -> forall b, In b l' -> exists a, In a l /\ f a = Ok b.
Proof.
  revert l'. induction l as [|a l IH]; intros l'; simpl.
  - intros H. injection H as <-. intros b [].
  - destruct (f a) as [b0|] eqn:E; simpl; [|discriminate].
    destruct (mapM f l) as [bs|]; simpl; [|discriminate].
    intros H. injection H as <-. intros b [<-|Hb].
    + exists a. now split; [left|].
    + destruct (IH bs eq_refl b Hb) as [a' [Ha' Hf]]. exists a'. now split; [right|].
Qed.

(** The code taken from one part of a feature statement: what follows
    the first "wd:", up to the first " .". *)
Lemma qid_of_part (part : string) :
  (forall e, (a <- item 1 (split "wd:" part) ;; item 0 (split " ." a)) = Raise e ->
     e = IndexError /\ contains "wd:" part = false)
  /\ (contains "wd:" part = false ->
      (a <- item 1 (split "wd:" part) ;; item 0 (split " ." a)) = Raise IndexError)
  /\ (forall q, (a <- item 1 (split "wd:" part) ;; item 0 (split " ." a)) = Ok q ->
        contains " ." q = false).
Proof.
  assert (Hwd : "wd:"%string <> EmptyString) by discriminate.
  assert (Hstop : " ."%string <> EmptyString) by discriminate.
  destruct (item_1_split "wd:" part Hwd) as [Hno Hyes].
  assert (H0 : forall a, item 0 (split " ." a) = Ok (fst (split_from " ." a 0))).
  { intros a. unfold split. now destruct (split_from " ." a 0). }
  destruct (contains "wd:" part) eqn:E.
  - destruct (Hyes eq_refl) as [a Ha]. rewrite Ha. simpl. rewrite H0.
    split; [discriminate|]. split; [discriminate|].
    intros q H. injection H as <-. now apply split_from_head_clean.
  - rewrite (Hno eq_refl). simpl.
    split; [intros e H; injection H as <-; now split|].
    split; [reflexivity | discriminate].
Qed.

(** X19: [extract_form_qids] raises nothing but [IndexError], and raises
    it exactly when a feature statement is found and one of the parts of
    that statement, cut at ", ", does not hold "wd:".  A code it returns
    never holds the text " .": each code ends where the first " ." after
    its "wd:" begins. *)
Theorem extract_form_qids_IndexError (form_text : string) :
  (forall e, extract_form_qids form_text = Raise e -> e = IndexError)
  /\ (extract_form_qids form_text = Raise IndexError
      <-> exists m part,
            search qids_pattern form_text = Some m
            /\ In part (split ", " (group0 m))
            /\ contains "wd:" part = false)
  /\ (forall l q,
        extract_form_qids form_text = Ok (Some l) -> In q l ->
        contains " ." q = false).
Proof.
  unfold extract_form_qids.
  destruct (search qids_pattern form_text) as [m|].
  - set (qid_of := fun q : string => a <- item 1 (split "wd:" q) ;; item 0 (split " ." a)).
    destruct (mapM qid_of (split ", " (group0 m))) as [l|e0] eqn:E; simpl.
    + split; [discriminate|]. split.
      * split; [discriminate|]. intros (m' & part & Hm & Hin & Hno).
        injection Hm as <-.
        assert (Hr : mapM qid_of (split ", " (group0 m)) = Raise IndexError).
        { apply (mapM_Raise_intro qid_of _ part); [assumption | |].
          - now apply (proj1 (proj2 (qid_of_part part))).
          - intros y e' Hy. now apply (proj1 (qid_of_part y)) in Hy. }
        congruence.
      * intros l' q H Hq. injection H as <-.
        destruct (mapM_Ok_In _ _ _ E q Hq) as [part [_ Hpart]].
        now apply (proj2 (proj2 (qid_of_part part))) in Hpart.
    + apply mapM_Raise in E. destruct E as [part [Hin Hpart]].
      apply (proj1 (qid_of_part part)) in Hpart. destruct Hpart as [-> Hno].
      split; [intros e H; now injection H as <-|].
      split; [|discriminate].
      split; [|reflexivity]. intros _. now exists m, part.
  - split; [discriminate|]. split; [|discriminate].
    split; [discriminate|]. intros (m & part & Hm & _). discriminate.
Qed.

End Validator.

(** ** The properties on the sample data *)

Lemma sample_metadata_complete : complete_vocabulary sample_metadata.
Proof.
  intros category sub Hc Hs. simpl in Hc.
  repeat (destruct Hc as [<-|Hc];
          [simpl in Hs;
           repeat (destruct Hs as [<-|Hs]; [split; discriminate|]);
           destruct Hs|]).
  destruct Hc.
Qed.

Lemma return_correct_form_label_order_independent_witness :
  return_correct_form_label sample_metadata (Some ["Q131105"; "Q110786"])
  = return_correct_form_label sample_metadata (Some ["Q110786"; "Q131105"])
  /\ return_correct_form_label sample_metadata (Some ["Q131105"; "Q110786"])
     = Ok "singularNominative".
Proof.
  destruct (return_correct_form_label_order_independent sample_metadata
              ["Q131105"; "Q110786"] ["Q110786"; "Q131105"]) as [Hsame Hlabel].
  - apply perm_swap.
  - intros q Hq. simpl in Hq. destruct Hq as [<-|[<-|[]]]; simpl; tauto.
  - split; [exact Hsame|].
    rewrite Hlabel; [reflexivity | discriminate | exact sample_metadata_complete].
Defined.

Lemma return_correct_form_label_not_included_witness :
  exists absent,
    (forall q, In q absent
               <-> In q ["Q9"; "Q131105"; "Q10"; "Q9"]
                   /\ ~ In q (lexeme_form_qid_order sample_metadata))
    /\ strictly_ascending absent
    /\ return_correct_form_label sample_metadata (Some ["Q9"; "Q131105"; "Q10"; "Q9"])
       = Ok ((if (List.length absent =? 1)%nat then "QID" else "QIDs")
             ++ " " ++ join ", " absent
             ++ " not included in lexeme_form.metadata.json")%string.
Proof.
  apply (return_correct_form_label_not_included sample_metadata
           ["Q9"; "Q131105"; "Q10"; "Q9"]).
  - discriminate.
  - exists "Q9". split; [now left|].
    simpl. intros H. repeat (destruct H as [H|H]; [discriminate|]). exact H.
Defined.

Lemma check_docstring_prefix_check_witness :
  check_docstring good_document = Ok DocTrue
  /\ exists j first,
       j <= 1
       /\ nth_error (splitlines bad_summary_document) j = Some first
       /\ docstring_line_ok j first = false
       /\ (forall k l, k < j -> nth_error (splitlines bad_summary_document) k = Some l ->
             docstring_line_ok k l = true)
       /\ check_docstring bad_summary_document
          = Ok (DocFalse (error_in_line j ++ " " ++ strip first)%string).
Proof.
  split.
  - eapply (proj1 (check_docstring_prefix_check good_document));
      [reflexivity | reflexivity | reflexivity | reflexivity].
  - eapply (proj2 (check_docstring_prefix_check bad_summary_document) 1);
      [lia | reflexivity | reflexivity].
Defined.

Lemma validate_forms_duplicate_priority_witness :
  exists duplicates,
    NoDup duplicates
    /\ (forall v, In v duplicates
                  <-> not_lexeme v = true
                      /\ 2 <= count v ["noun"; "singular"; "singular"])
    /\ validate_forms sample_set_iteration single_duplicate_query
       = ("Duplicate forms found in SELECT: " ++ join ", " duplicates)%string
    /\ ((forall v, In v duplicates -> v = "singular") ->
        validate_forms sample_set_iteration single_duplicate_query
        = "Duplicate forms found in SELECT: singular")
    /\ validate_forms sample_set_iteration single_duplicate_query <> order_message.
Proof.
  apply (validate_forms_duplicate_priority sample_set_iteration).
  - intros l. apply NoDup_nodup.
  - intros l x. apply nodup_In.
  - reflexivity.
  - vm_compute. lia.
Defined.

(** C3 as stated fails: with "plural" and "singular" both selected twice,
    a set that yields "plural" first gives an error text in which
    "Duplicate forms found in SELECT: singular" does not occur. *)
Lemma validate_forms_duplicate_singular_counterexample :
  (forall l, NoDup (sample_set_iteration l))
  /\ (forall l x, In x (sample_set_iteration l) <-> In x l)
  /\ select_vars_of duplicates_query = Some ["plural"; "plural"; "singular"; "singular"]
  /\ count "singular" ["plural"; "plural"; "singular"; "singular"] = 2
  /\ validate_forms sample_set_iteration duplicates_query
     = "Duplicate forms found in SELECT: plural, singular"
  /\ contains "Duplicate forms found in SELECT: singular"
       (validate_forms sample_set_iteration duplicates_query) = false.
Proof.
  split; [intros l; apply NoDup_nodup|].
  split; [intros l x; apply nodup_In|].
  repeat split; vm_compute; reflexivity.
Qed.

Lemma validate_forms_undefined_forms_witness :
  exists missing,
    (forall v, In v missing
               <-> In v ["noun"; "plural"]
                   /\ ~ In v (where_vars_of ["noun"; "plural"] undefined_query))
    /\ strictly_ascending missing
    /\ (missing <> [] ->
        validate_forms sample_set_iteration undefined_query
        = ("Undefined forms found in SELECT: " ++ join ", " missing)%string)
    /\ (missing = [] ->
        startswith "Undefined forms found in SELECT"
          (validate_forms sample_set_iteration undefined_query) = false).
Proof.
  apply (validate_forms_undefined_forms sample_set_iteration undefined_query).
  - reflexivity.
  - repeat constructor; simpl; intuition discriminate.
Defined.

(** C4 as stated fails: "lexeme" selected in third place is reported as
    undefined, although no selection variable other than "lexeme" and
    "lexemeID" is missing from the pattern list. *)
Lemma validate_forms_completeness_counterexample :
  select_vars_of lexeme_query = Some ["lexeme"]
  /\ where_vars_of ["lexeme"] lexeme_query = []
  /\ validate_forms sample_set_iteration lexeme_query
     = "Undefined forms found in SELECT: lexeme"
  /\ ~ (exists v, In v (filter not_lexeme ["lexeme"])
                  /\ ~ In v (filter not_lexeme (where_vars_of ["lexeme"] lexeme_query))).
Proof.
  repeat split; try (vm_compute; reflexivity).
  intros [v [Hv _]]. vm_compute in Hv. exact Hv.
Qed.

Lemma query_form_check_dict_last_block_wins_witness :
  exists v,
    check_form sample_metadata sample_compile_interpolated second_plural_form
    = Ok (extract_form_rep_label second_plural_form, v)
    /\ dict_get (extract_form_rep_label second_plural_form)
         [(Some "plural", FormCheck true true (Some ["Q146786"]) "plural")]
       = Some v
    /\ (forall v',
          In (extract_form_rep_label second_plural_form, v')
            [(Some "plural", FormCheck true true (Some ["Q146786"]) "plural")] ->
          v' = v).
Proof.
  refine (proj1 (proj2 (proj2 (query_form_check_dict_last_block_wins sample_metadata
            sample_compile_interpolated [first_plural_form; second_plural_form]
            [(Some "plural", FormCheck true true (Some ["Q146786"]) "plural")] _)))
            [first_plural_form] second_plural_form [] _ _ _).
  - vm_compute. reflexivity.
  - reflexivity.
  - vm_compute. reflexivity.
  - intros later [].
Defined.


(** The insertions are made in the fixed order "case", "gender",
    "auxiliaryVerb".  When "auxiliaryVerb" is selected before "gender",
    its insertion, which comes last, moves "gender" one place on: the
    list compared differs from the selection list and the order error
    is returned. *)
Lemma auxiliaryVerb_insertion_moves_gender :
  select_vars_of shifted_gender_query
  = Some ["auxiliaryVerb"; "infinitive"; "gender"; "participle"]
  /\ natural_where_vars shifted_gender_query = ["infinitive"; "participle"]
  /\ insert_labeling_var ["auxiliaryVerb"; "infinitive"; "gender"; "participle"]
       (natural_where_vars shifted_gender_query) "gender"
     = ["infinitive"; "participle"; "gender"]
  /\ where_vars_of ["auxiliaryVerb"; "infinitive"; "gender"; "participle"]
       shifted_gender_query
     = ["auxiliaryVerb"; "infinitive"; "participle"; "gender"]
  /\ validate_forms sample_set_iteration shifted_gender_query = order_message.
Proof. repeat split; vm_compute; reflexivity. Qed.

(** ** The further properties on the sample data *)

Lemma sample_qid_order_NoDup : NoDup (lexeme_form_qid_order sample_metadata).
Proof.
  change (lexeme_form_qid_order sample_metadata)
    with ["Q110786"; "Q146786"; "Q1775415"; "Q499327"; "Q131105"; "Q146233"].
  repeat constructor; simpl; intuition discriminate.
Qed.

Lemma return_correct_form_label_same_elements_witness :
  return_correct_form_label sample_metadata (Some ["Q131105"; "Q110786"; "Q131105"])
  = return_correct_form_label sample_metadata (Some ["Q110786"; "Q131105"]).
Proof.
  apply (return_correct_form_label_same_elements sample_metadata).
  intros q. simpl. tauto.
Defined.

Lemma return_correct_form_label_KeyError_witness :
  return_correct_form_label partial_metadata (Some ["Q110786"]) = Raise KeyError.
Proof.
  apply (proj1 (return_correct_form_label_KeyError partial_metadata)).
  - exists ("01_number",
            [ ("singular", FormEntry (Some "Q110786") (Some "Singular"));
              ("dual", FormEntry None (Some "Dual")) ]),
           ("dual", FormEntry None (Some "Dual")).
    simpl. tauto.
  - discriminate.
  - intros q Hq. simpl in Hq. destruct Hq as [<-|[]]. simpl. tauto.
Defined.

Lemma return_correct_form_label_single_witness :
  return_correct_form_label sample_metadata (Some ["Q1775415"]) = Ok "feminine".
Proof.
  apply (return_correct_form_label_single sample_metadata
           ("02_gender",
            [ ("feminine", FormEntry (Some "Q1775415") (Some "Feminine"));
              ("masculine", FormEntry (Some "Q499327") (Some "Masculine")) ])
           ("feminine", FormEntry (Some "Q1775415") (Some "Feminine"))
           "Q1775415" "Feminine").
  - exact sample_metadata_complete.
  - exact sample_qid_order_NoDup.
  - simpl. tauto.
  - simpl. tauto.
  - reflexivity.
  - reflexivity.
Defined.

Lemma validate_forms_unreturned_forms_witness :
  exists unreturned,
    (forall v, In v unreturned
               <-> In v (where_vars_of ["noun"] unreturned_query) /\ ~ In v ["noun"])
    /\ strictly_ascending unreturned
    /\ (unreturned <> [] ->
        validate_forms sample_set_iteration unreturned_query
        = ("Defined but unreturned forms found: " ++ join ", " unreturned)%string)
    /\ (unreturned = [] ->
        validate_forms sample_set_iteration unreturned_query = EmptyString
        \/ validate_forms sample_set_iteration unreturned_query = order_message).
Proof.
  apply (validate_forms_unreturned_forms sample_set_iteration unreturned_query ["noun"]).
  - reflexivity.
  - repeat constructor; simpl; intuition discriminate.
  - intros v Hv. vm_compute. vm_compute in Hv. tauto.
Defined.

Lemma where_vars_of_elements_witness :
  ~ In "gender"
      (set_diff ["noun"; "plural"; "gender"]
         (where_vars_of ["noun"; "plural"; "gender"] aligned_gender_query)).
Proof.
  apply (proj2 (proj2 (where_vars_of_elements ["noun"; "plural"; "gender"]
                         aligned_gender_query))).
  simpl. tauto.
Defined.

Lemma check_docstring_IndexError_witness :
  check_docstring short_document = Raise IndexError
  /\ exists verdict, check_docstring bad_summary_document = Ok verdict.
Proof.
  split.
  - apply (proj1 (proj2 (check_docstring_IndexError short_document))). split.
    + vm_compute. lia.
    + intros i line H. destruct i as [|[|i]]; vm_compute in H.
      * injection H as <-. reflexivity.
      * injection H as <-. reflexivity.
      * destruct i; discriminate.
  - apply (proj2 (proj2 (check_docstring_IndexError bad_summary_document))).
    vm_compute. lia.
Defined.

Lemma check_query_formatting_concat_witness :
  check_query_formatting "?lexeme ontolex:lexicalForm ?pluralForm ." = true
  /\ check_query_formatting " ?pluralForm ontolex:representation ?plural ;" = true.
Proof.
  apply (proj2 check_query_formatting_concat).
  vm_compute. reflexivity.
Defined.


Lemma check_query_file_reports_unlabeled_witness :
  exists labels msg,
    In (LabelsFinding labels) [LabelsFinding [(None, formatting_message)]]
    /\ In (None, msg) labels.
Proof.
  apply (check_query_file_reports_unlabeled sample_metadata sample_set_iteration
           sample_compile_interpolated unlabeled_document
           [LabelsFinding [(None, formatting_message)]] unlabeled_form).
  - vm_compute. reflexivity.
  - vm_compute. left. reflexivity.
  - vm_compute. reflexivity.
  - vm_compute. reflexivity.
Defined.

Lemma extract_forms_from_sparql_blocks_witness :
  all_chars (not_char "}"%char) second_plural_form = true
  /\ exists pre c1 c2 ws post,
       clean_document
       = (pre ++ String c1 (String c2 ("OPTIONAL" ++ ws ++ "{" ++ second_plural_form
                                       ++ "}" ++ post)))%string
       /\ is_space c1 = true /\ is_space c2 = true /\ all_chars is_space ws = true.
Proof.
  apply (extract_forms_from_sparql_blocks clean_document [second_plural_form]).
  - vm_compute. reflexivity.
  - left. reflexivity.
Defined.

Lemma validate_forms_no_select_iff_witness :
  validate_forms sample_set_iteration no_select_query
  = "Invalid query format: no SELECT match".
Proof.
  apply (proj2 (validate_forms_no_select_iff sample_set_iteration no_select_query)).
  left. vm_compute. reflexivity.
Defined.

Lemma validate_forms_variables_witness :
  (forall v, In v ["noun"; "plural"; "gender"] ->
     v <> EmptyString /\ all_chars is_word v = true)
  /\ (forall v, In v (where_vars_of ["noun"; "plural"; "gender"] aligned_gender_query) ->
        v <> EmptyString
        /\ all_chars (fun c => negb (Ascii.eqb c " "%char || Ascii.eqb c ";"%char)) v = true).
Proof.
  apply (validate_forms_variables aligned_gender_query ["noun"; "plural"; "gender"]).
  vm_compute. reflexivity.
Defined.

Lemma extract_form_rep_label_shape_witness :
  (exists pre statement post,
     second_plural_form
     = (pre ++ "ontolex:representation " ++ statement ++ " ;" ++ post)%string
     /\ all_chars is_dot statement = true)
  /\ all_chars is_dot "plural" = true
  /\ lstrip "plural" = "plural" /\ rstrip "plural" = "plural".
Proof.
  apply (extract_form_rep_label_shape second_plural_form "plural").
  vm_compute. reflexivity.
Defined.

Lemma check_form_label_outcomes_witness :
  check_form_label sample_compile_interpolated no_prefix_qid_form = Ok false
  /\ (exists label_match,
        search form_label_pattern "?lexeme ontolex:lexicalForm ?singularForm ."
        = Some label_match
        /\ forall e,
             check_form_label sample_compile_interpolated unbound_label_form = Raise e
             <-> (scoped_onto_rep_pattern sample_compile_interpolated
                    (strip (group1_str label_match)) = Raise e
                  \/ (e = UnboundLocalError
                      /\ exists pattern statement,
                           scoped_onto_rep_pattern sample_compile_interpolated
                             (strip (group1_str label_match)) = Ok pattern
                           /\ search pattern unbound_label_form = Some statement
                           /\ ~ exists pre v post,
                                  group0 statement
                                  = (pre ++ "?" ++ v ++ ";" ++ post)%string
                                  /\ all_chars is_dot v = true)))
  /\ (forallb (fun c => negb (is_re_special c)) (list_ascii_of_string "plural(Form") = false
      /\ sample_compile_interpolated "plural(Form ontolex:representation .* ;"
         = Raise ReError).
Proof.
  split; [|split].
  - apply (proj1 (check_form_label_outcomes sample_compile_interpolated no_prefix_qid_form)).
    vm_compute. reflexivity.
  - apply (proj1 (proj2 (check_form_label_outcomes sample_compile_interpolated
                           unbound_label_form))
             (MObj 0 43 "?lexeme ontolex:lexicalForm ?singularForm ." None)).
    vm_compute. reflexivity.
  - apply (proj2 (proj2 (check_form_label_outcomes sample_compile_interpolated
                           unbalanced_label_form)) "plural(Form" ReError).
    vm_compute. reflexivity.
Defined.

Lemma check_docstring_accepted_witness :
  (exists summary rest,
     clean_document
     = (("# tool: scribe-data" ++ String LF EmptyString) ++ summary
        ++ ("# Enter this query at https://query.wikidata.org/." ++ String LF EmptyString)
        ++ rest)%string
     /\ docstring_line_ok 1 summary = true)
  /\ check_docstring good_document = Ok DocTrue.
Proof.
  split.
  - apply (proj1 (check_docstring_accepted clean_document)).
    vm_compute. reflexivity.
  - apply (proj2 (check_docstring_accepted good_document)
             "# All German (Q188) nouns (Q1084) and the given forms." "SELECT").
    + vm_compute. reflexivity.
    + vm_compute. reflexivity.
    + reflexivity.
Defined.

Lemma check_form_results_witness :
  Some "plural" = extract_form_rep_label second_plural_form
  /\ true = check_query_formatting second_plural_form
  /\ (Some ["Q146786"] = None <-> "plural" = "Invalid query formatting found")
  /\ (contains "wikibase:grammaticalFeature " second_plural_form = false ->
      Some ["Q146786"] = None)
  /\ (forall l, Some ["Q146786"] = Some l ->
        l <> [] /\ return_correct_form_label sample_metadata (Some l) = Ok "plural").
Proof.
  apply (check_form_results sample_metadata sample_compile_interpolated second_plural_form
           (Some "plural") (FormCheck true true (Some ["Q146786"]) "plural")).
  vm_compute. reflexivity.
Defined.

Lemma extract_form_qids_IndexError_witness :
  extract_form_qids no_prefix_qid_form = Raise IndexError
  /\ contains " ." "Q146786" = false.
Proof.
  split.
  - apply (proj2 (proj1 (proj2 (extract_form_qids_IndexError no_prefix_qid_form)))).
    exists (MObj 0 37 no_prefix_qid_form None), no_prefix_qid_form.
    split; [vm_compute; reflexivity|]. split; [vm_compute; tauto | vm_compute; reflexivity].
  - apply (proj2 (proj2 (extract_form_qids_IndexError second_plural_form)) ["Q146786"]).
    + vm_compute. reflexivity.
    + left. reflexivity.
Defined.
